(** * react-native-swipe-carousel: the position / selection model

    A shallow embedding of [src/index.tsx].  JavaScript numbers are
    modelled by exact rationals ([Q]) for pixel quantities (offsets, drag
    deltas, velocities, scales) and by [Z] for the integer-valued ones
    (indices, lengths).  Rounding error, NaN and the infinities are outside
    the model: [Qdiv] is total ([x / 0 == 0]) whereas JavaScript yields NaN
    or an infinity, so every statement that goes through the division by
    the item spacing assumes a non-zero spacing.  A spring animation
    ([withSpring]) is represented by its rest value. *)

From Stdlib Require Import ZArith QArith Qround Qabs Qminmax.
From Stdlib Require Import List String Bool Lia Lqa.
Import ListNotations.

Local Open Scope Z_scope.

(** ** JavaScript primitives used by the component *)

Definition Qlt_bool (x y : Q) : bool := negb (Qle_bool y x).

Module Math.

(** [Math.round]: nearest integer, halves go towards plus infinity. *)
Definition round (x : Q) : Z := Qfloor (x + (1 # 2))%Q.

Definition abs (x : Q) : Q := Qabs x.

(** [Math.max] and [Math.min] on pixel quantities. *)
Definition max (x y : Q) : Q := Qmax x y.
Definition min (x y : Q) : Q := Qmin x y.

(** [Math.max] and [Math.min] on integer-valued numbers. *)
Definition maxi (x y : Z) : Z := Z.max x y.
Definition mini (x y : Z) : Z := Z.min x y.

End Math.

Module Array.

Section Ops.
Context {A B : Type}.

Definition length (l : list A) : Z := Z.of_nat (List.length l).

(** [l.findIndex(p)]: first index whose element satisfies [p], or -1. *)
Fixpoint findIndexFrom (p : A -> bool) (l : list A) (k : Z) : Z :=
  match l with
  | [] => -1
  | x :: r => if p x then k else findIndexFrom p r (k + 1)
  end.

Definition findIndex (p : A -> bool) (l : list A) : Z :=
  findIndexFrom p l 0.

(** [l[i]]: [None] stands for [undefined]. *)
Definition get (l : list A) (i : Z) : option A :=
  if i <? 0 then None else nth_error l (Z.to_nat i).

(** [l.map((x, index) => f(x, index))]. *)
Fixpoint mapFrom (f : A -> Z -> B) (l : list A) (k : Z) : list B :=
  match l with
  | [] => []
  | x :: r => f x k :: mapFrom f r (k + 1)
  end.

Definition map (f : A -> Z -> B) (l : list A) : list B := mapFrom f l 0.

End Ops.

End Array.

(** ** Constants of [index.tsx] *)

Definition DEFAULT_ITEM_SIZE : Q := 192.
Definition DEFAULT_ITEM_SPACING : Q := 200.
Definition DEFAULT_MIN_SCALE : Q := 7 # 10.
Definition DEFAULT_MAX_SCALE : Q := 1.
Definition VELOCITY_THRESHOLD : Q := 500.
Definition MAX_OPACITY : Q := 1.
Definition MIN_OPACITY : Q := 6 # 10.

(** Payload of a pan gesture event. *)
Record PanGestureEvent : Type := mkEvent {
  translationX : Q;
  velocityX : Q
}.

(** Modelled from the spec: [interpolate] with [Extrapolation.CLAMP] is a
    function of react-native-reanimated, which is not under src/.  The spec
    describes it as a linear interpolation between the two points of the
    range that is clamped beyond them; the definition computes that the way
    the library does for a two-point range: the output for the progress
    along the input range, replaced by the nearer edge output when it falls
    outside the output range. *)
Definition interpolate (x : Q) (inputRange outputRange : Q * Q) : Q :=
  let '(leftEdgeInput, rightEdgeInput) := inputRange in
  let '(leftEdgeOutput, rightEdgeOutput) := outputRange in
  if Qeq_bool (rightEdgeInput - leftEdgeInput) 0 then leftEdgeOutput
  else
    let progress := ((x - leftEdgeInput) / (rightEdgeInput - leftEdgeInput))%Q in
    let val := (leftEdgeOutput + progress * (rightEdgeOutput - leftEdgeOutput))%Q in
    let coef : Q := (if Qle_bool leftEdgeOutput rightEdgeOutput then 1 else -1)%Q in
    if Qlt_bool (coef * val) (coef * leftEdgeOutput) then leftEdgeOutput
    else if Qlt_bool (coef * rightEdgeOutput) (coef * val) then rightEdgeOutput
    else val.

(** ** The component *)

Section Carousel.

(** The item type and the caller's id extractor. *)
Context {T : Type}.
Variable getItemId : T -> string.

(** [hasRenderDetail] tells whether the optional [renderDetail] callback is
    supplied. *)
Record CarouselProps : Type := mkProps {
  items : list T;
  selectedItem : T;
  itemSize : Q;
  itemSpacing : Q;
  minScale : Q;
  maxScale : Q;
  hasRenderDetail : bool
}.

(** Invocations of the caller's callbacks, in the order they happen. *)
Inductive Call : Type :=
| RenderItem (item : T) (index : Z)
| RenderDetail (item : T)
| OnItemChange (item : T).

(** What one mounted carousel owns: the two shared values, the ref that
    remembers the last seen selected id, and the trace of callback
    invocations made so far. *)
Record Instance : Type := mkInstance {
  translateX : Q;
  currentIndex : Z;
  previousItemId : string;
  trace : list Call
}.

(** Code that reads and writes the instance. *)
Definition Hook (A : Type) : Type := Instance -> A * Instance.

Definition ret {A} (a : A) : Hook A := fun c => (a, c).
Definition bind {A B} (m : Hook A) (k : A -> Hook B) : Hook B :=
  fun c => let (a, c') := m c in k a c'.
Definition exec {A} (m : Hook A) (c : Instance) : Instance := snd (m c).

Notation "x <- m ;; k" := (bind m (fun x => k))
  (at level 61, m at next level, right associativity).
Notation "m ;; k" := (bind m (fun _ => k))
  (at level 61, right associativity).

Definition get_translateX : Hook Q := fun c => (translateX c, c).
Definition get_currentIndex : Hook Z := fun c => (currentIndex c, c).
Definition get_previousItemId : Hook string := fun c => (previousItemId c, c).
Definition set_translateX (x : Q) : Hook unit :=
  fun c => (tt, mkInstance x (currentIndex c) (previousItemId c) (trace c)).
Definition set_currentIndex (i : Z) : Hook unit :=
  fun c => (tt, mkInstance (translateX c) i (previousItemId c) (trace c)).
Definition set_previousItemId (s : string) : Hook unit :=
  fun c => (tt, mkInstance (translateX c) (currentIndex c) s (trace c)).
Definition invoke (e : Call) : Hook unit :=
  fun c => (tt, mkInstance (translateX c) (currentIndex c) (previousItemId c)
                           (trace c ++ [e])).

(** [withSpring(toValue, ...)]: the value the offset comes to rest at. *)
Definition withSpring (toValue : Q) : Q := toValue.

Fixpoint sequence (l : list (Hook unit)) : Hook unit :=
  match l with
  | [] => ret tt
  | m :: r => m ;; sequence r
  end.

Section WithProps.

Variable props : CarouselProps.

Definition sameId (a b : T) : bool := String.eqb (getItemId a) (getItemId b).

(** Lines 245-250: the values the hooks start from on the first render. *)
Definition initialIndex : Z :=
  Array.findIndex (fun item => sameId item (selectedItem props)) (items props).

Definition mount : Instance :=
  {| translateX := (- inject_Z initialIndex * itemSpacing props)%Q;
     currentIndex := if 0 <=? initialIndex then initialIndex else 0;
     previousItemId := getItemId (selectedItem props);
     trace := [] |}.

(** Lines 252-267: the effect run after a render. *)
Definition useEffect : Hook unit :=
  let currentItemId := getItemId (selectedItem props) in
  prev <- get_previousItemId ;;
  if negb (String.eqb prev currentItemId) then
    set_previousItemId currentItemId ;;
    let index :=
      Array.findIndex (fun item => String.eqb (getItemId item) currentItemId)
                      (items props) in
    if negb (index =? -1) then
      set_currentIndex index ;;
      set_translateX (withSpring (- inject_Z index * itemSpacing props)%Q)
    else ret tt
  else ret tt.

(** Lines 269-277. *)
Definition snapToIndex (index : Z) : Hook unit :=
  let clampedIndex :=
    Math.maxi 0 (Math.mini index (Array.length (items props) - 1)) in
  set_translateX (withSpring (- inject_Z clampedIndex * itemSpacing props)%Q) ;;
  set_currentIndex clampedIndex.

(** Lines 279-285.  An item is an object, hence truthy whenever the
    lookup finds one. *)
Definition updateSelectedItem (index : Z) : Hook unit :=
  let clampedIndex :=
    Math.maxi 0 (Math.mini index (Array.length (items props) - 1)) in
  match Array.get (items props) clampedIndex with
  | Some item =>
      if negb (sameId item (selectedItem props))
      then invoke (OnItemChange item)
      else ret tt
  | None => ret tt
  end.

(** Lines 289-299: the pan gesture's [onUpdate]. *)
Definition onUpdate (event : PanGestureEvent) : Hook unit :=
  i <- get_currentIndex ;;
  let newTranslateX := (- inject_Z i * itemSpacing props + translationX event)%Q in
  let minTranslateX :=
    (- inject_Z (Array.length (items props) - 1) * itemSpacing props)%Q in
  let maxTranslateX := 0%Q in
  set_translateX
    (Math.max minTranslateX (Math.min maxTranslateX newTranslateX)).

(** Lines 300-316: the pan gesture's [onEnd], up to the index handed to
    [snapToIndex] and [updateSelectedItem]. *)
Definition releaseIndex (currentTranslateX velocity : Q) : Z :=
  let targetIndex := Math.round (- currentTranslateX / itemSpacing props)%Q in
  if Qlt_bool VELOCITY_THRESHOLD (Math.abs velocity) then
    if Qlt_bool velocity 0
    then Math.mini (targetIndex + 1) (Array.length (items props) - 1)
    else Math.maxi (targetIndex - 1) 0
  else targetIndex.

(** [scheduleOnRN] runs the notification on the application thread; the
    model runs it right after the snap. *)
Definition onEnd (event : PanGestureEvent) : Hook unit :=
  currentTranslateX <- get_translateX ;;
  let velocity := velocityX event in
  let targetIndex := releaseIndex currentTranslateX velocity in
  snapToIndex targetIndex ;;
  updateSelectedItem targetIndex.

(** Lines 169-228: one [CarouselItem] calls [renderItem] once. *)
Definition CarouselItem (item : T) (index : Z) : Hook unit :=
  invoke (RenderItem item index).

(** Lines 318-378: one render pass, as the callbacks it makes.  The body
    of [Carousel] builds one [CarouselItem] element per item and calls
    [renderDetail] itself; the elements are rendered after the body has
    returned, in list order.  [GradientBorder] calls nothing of the
    caller's. *)
Definition render : Hook unit :=
  let children := Array.map CarouselItem (items props) in
  (if hasRenderDetail props
   then invoke (RenderDetail (selectedItem props))
   else ret tt) ;;
  sequence children.

(** Lines 182-208: the animated style of the item at [index] when the
    shared offset is [tx]; [SCREEN_WIDTH] is the window width.  Besides the
    three values the style is made of, the record keeps the local
    [distanceFromCenter] they are interpolated from. *)
Record AnimatedStyle : Type := mkStyle {
  position : Q;
  distanceFromCenter : Q;
  scale : Q;
  opacity : Q
}.

Definition animatedStyle (SCREEN_WIDTH : Q) (index : Z) (tx : Q) : AnimatedStyle :=
  let CENTER_X := (SCREEN_WIDTH / 2)%Q in
  let CENTER_OFFSET := (CENTER_X - itemSize props / 2)%Q in
  let basePosition := CENTER_OFFSET in
  let offset := (inject_Z index * itemSpacing props)%Q in
  let position := (basePosition + tx + offset)%Q in
  let distanceFromCenter :=
    Math.abs (position + itemSize props / 2 - CENTER_X)%Q in
  let maxDistance := itemSpacing props in
  {| position := position;
     distanceFromCenter := distanceFromCenter;
     scale := interpolate distanceFromCenter (0%Q, maxDistance)
                          (maxScale props, minScale props);
     opacity := interpolate distanceFromCenter (0%Q, maxDistance)
                            (MAX_OPACITY, MIN_OPACITY) |}.

End WithProps.

End Carousel.

Arguments Call : clear implicits.
Arguments Instance : clear implicits.
Arguments CarouselProps : clear implicits.

(** ** Test data of the repository's test suite *)

Record TestItem : Type := mkTestItem {
  id : string;
  name : string;
  image : string
}.

Definition mockGetItemId (item : TestItem) : string := id item.

Definition testItem (i : string) : TestItem :=
  {| id := "item-" ++ i;
     name := "Item " ++ i;
     image := "https://example.com/image-" ++ i ++ ".jpg" |}.

(** [createTestItems(3)] and [createTestItems(5)]. *)
Definition items3 : list TestItem := [testItem "0"; testItem "1"; testItem "2"].
Definition items5 : list TestItem := items3 ++ [testItem "3"; testItem "4"].

Definition nonExistentItem : TestItem :=
  {| id := "non-existent";
     name := "Non-existent";
     image := "https://example.com/image.jpg" |}.

(** Props as the tests build them: the given list and selected item, every
    optional prop at its default, no [renderDetail]. *)
Definition testProps (l : list TestItem) (sel : TestItem) : CarouselProps TestItem :=
  {| items := l;
     selectedItem := sel;
     itemSize := DEFAULT_ITEM_SIZE;
     itemSpacing := DEFAULT_ITEM_SPACING;
     minScale := DEFAULT_MIN_SCALE;
     maxScale := DEFAULT_MAX_SCALE;
     hasRenderDetail := false |}.

(** ** Runs of the component *)

(** The instance once the component has been rendered for the first time:
    the hooks take their initial values, the tree is rendered, the effect
    runs. *)
Definition firstRender {T} (getItemId : T -> string) (props : CarouselProps T)
    : Instance T :=
  exec (useEffect getItemId props) (exec (render props) (mount getItemId props)).

(** One event of the pan gesture. *)
Inductive GestureStep : Type :=
| Update (event : PanGestureEvent)
| End (event : PanGestureEvent).

Definition handle {T} (getItemId : T -> string) (props : CarouselProps T)
    (g : GestureStep) : Hook (T:=T) unit :=
  match g with
  | Update event => onUpdate props event
  | End event => onEnd getItemId props event
  end.

Definition gestures {T} (getItemId : T -> string) (props : CarouselProps T)
    (gs : list GestureStep) : Hook (T:=T) unit :=
  sequence (List.map (handle getItemId props) gs).

(** A drag that reports the translation [dx] once and is released with the
    velocity [vx]. *)
Definition dragFrom {T} (getItemId : T -> string) (props : CarouselProps T)
    (dx vx : Q) (c : Instance T) : Instance T :=
  exec (onEnd getItemId props (mkEvent dx vx))
       (exec (onUpdate props (mkEvent dx 0)) c).

(** What happens to a mounted carousel between two rests: the host selects
    another item (a new render followed by the effect), or the user
    completes a drag (updates followed by the release). *)
Inductive Step (T : Type) : Type :=
| Select (item : T)
| Drag (updates : list PanGestureEvent) (release : PanGestureEvent).

Arguments Select {T} item.
Arguments Drag {T} updates release.

Definition withSelected {T} (props : CarouselProps T) (item : T) : CarouselProps T :=
  {| items := items props;
     selectedItem := item;
     itemSize := itemSize props;
     itemSpacing := itemSpacing props;
     minScale := minScale props;
     maxScale := maxScale props;
     hasRenderDetail := hasRenderDetail props |}.

Definition step {T} (getItemId : T -> string) (props : CarouselProps T)
    (c : Instance T) (st : Step T) : CarouselProps T * Instance T :=
  match st with
  | Select item =>
      let props' := withSelected props item in
      (props', exec (useEffect getItemId props') (exec (render props') c))
  | Drag updates release =>
      (props,
       exec (onEnd getItemId props release)
            (exec (sequence (List.map (onUpdate props) updates)) c))
  end.

Fixpoint run {T} (getItemId : T -> string) (props : CarouselProps T)
    (c : Instance T) (steps : list (Step T)) : CarouselProps T * Instance T :=
  match steps with
  | [] => (props, c)
  | st :: r =>
      let (props', c') := step getItemId props c st in
      run getItemId props' c' r
  end.

(** The [renderItem] invocations of a trace, as (item, index) pairs. *)
Fixpoint renderItemCalls {T} (tr : list (Call T)) : list (T * Z) :=
  match tr with
  | [] => []
  | RenderItem item index :: r => (item, index) :: renderItemCalls r
  | _ :: r => renderItemCalls r
  end.

(** The callbacks of one render pass. *)
Definition renderCalls {T} (props : CarouselProps T) : list (Call T) :=
  (if hasRenderDetail props then [RenderDetail (selectedItem props)] else [])
  ++ Array.map (@RenderItem T) (items props).

(** ** Vocabulary of the specification *)

(** "[x] clamped to [[lo, hi]]" on indices: the point of the interval
    nearest to [x]. *)
Definition clampedTo (lo hi x : Z) : Z :=
  if x <? lo then lo else if hi <? x then hi else x.

(** The snap target as section 4.1 words it: the rounded base index, moved
    by one against the sign of a velocity whose magnitude exceeds the
    threshold, clamped to the valid range. *)
Definition specNudge (v : Q) : Z :=
  if Qle_bool (Qabs v) 500 then 0
  else if Qlt_bool v 0 then 1
  else if Qlt_bool 0 v then -1
  else 0.

Definition specTarget (n : Z) (s o v : Q) : Z :=
  clampedTo 0 (n - 1) (Math.round (- o / s)%Q + specNudge v).

(** "[x] clamped to [[lo, 0]]" on offsets: the result [u] lies in the
    interval, is [x] itself when [x] lies in it, and the nearer bound
    otherwise. *)
Definition clampsInto (lo x u : Q) : Prop :=
  (lo <= u <= 0 /\
   (lo <= x <= 0 -> u == x) /\
   (x < lo -> u == lo) /\
   (0 < x -> u == 0))%Q.

(** Section 4.1 for one [onUpdate]: the live offset is [- i * s + d]
    clamped to [[- (n - 1) * s, 0]]. *)
Definition updateClampsOffset {T} (props : CarouselProps T) (c : Instance T)
    (event : PanGestureEvent) : Prop :=
  let n := Array.length (items props) in
  let s := itemSpacing props in
  clampsInto (- inject_Z (n - 1) * s)%Q
             (- inject_Z (currentIndex c) * s + translationX event)%Q
             (translateX (exec (onUpdate props event) c)).

(** [i] is the index of the first element of [l] that satisfies [p]. *)
Definition firstIndexOf {A} (p : A -> bool) (l : list A) (i : Z) : Prop :=
  exists a, Array.get l i = Some a /\ p a = true /\
    forall j b, 0 <= j < i -> Array.get l j = Some b -> p b = false.

(** "The gesture has no effect": it leaves the instance as it found it. *)
Definition gestureInert {T} (getItemId : T -> string) (props : CarouselProps T)
    (c : Instance T) (g : GestureStep) : Prop :=
  let c' := exec (handle getItemId props g) c in
  (translateX c' == translateX c)%Q /\
  currentIndex c' = currentIndex c /\
  trace c' = trace c.

(** The offset rests on the valid index [i]. *)
Definition restsOn {T} (props : CarouselProps T) (c : Instance T) (i : Z) : Prop :=
  0 <= i <= Array.length (items props) - 1 /\
  (translateX c == - inject_Z i * itemSpacing props)%Q.

(** The invariant of section 3: at rest the offset is [- index * spacing]
    for exactly one valid index, and the cached index is within
    [[0, length - 1]]. *)
Definition atRest {T} (props : CarouselProps T) (c : Instance T) : Prop :=
  (exists i, restsOn props c i /\ forall j, restsOn props c j -> j = i) /\
  0 <= currentIndex c <= Array.length (items props) - 1.

(** The offset is the one of the cached index, which is a valid index. *)
Definition anchored {T} (props : CarouselProps T) (c : Instance T) : Prop :=
  restsOn props c (currentIndex c).

(** ** The host's side of the selection *)

(** The calls a piece of code added to the trace. *)
Definition newCalls {T} (before after : Instance T) : list (Call T) :=
  skipn (List.length (trace before)) (trace after).

(** The host of the README and of the example application passes
    [onItemChange={setSelectedItem}]: every notification becomes the next
    [selectedItem] prop. *)
Definition adopt {T} (props : CarouselProps T) (calls : list (Call T))
    : CarouselProps T :=
  fold_left
    (fun p e => match e with OnItemChange item => withSelected p item | _ => p end)
    calls props.

(** A completed drag under such a host: the drag, and, when it notified
    the host, the render with the adopted selection followed by the
    effect. *)
Definition controlledDrag {T} (getItemId : T -> string) (props : CarouselProps T)
    (c : Instance T) (updates : list PanGestureEvent) (release : PanGestureEvent)
    : CarouselProps T * Instance T :=
  let c1 := snd (step getItemId props c (Drag updates release)) in
  match newCalls c c1 with
  | [] => (props, c1)
  | calls =>
      let props' := adopt props calls in
      (props', exec (useEffect getItemId props') (exec (render props') c1))
  end.

(** The selection and the carousel agree: the offset is the one of the
    cached index, the item there has the selected item's id, and that id is
    the remembered one. *)
Definition synced {T} (getItemId : T -> string) (props : CarouselProps T)
    (c : Instance T) : Prop :=
  anchored props c /\
  previousItemId c = getItemId (selectedItem props) /\
  exists item, Array.get (items props) (currentIndex c) = Some item /\
               getItemId item = getItemId (selectedItem props).

(** ** The gradient ring *)

Module Gradient.

Definition GRADIENT_BORDER_PADDING : Q := 8.
Definition GRADIENT_STROKE_WIDTH : Q := 4.
Definition GRADIENT_RADIUS_OFFSET : Q := 2.

(** One [Stop] of the linear gradient; [offset] is the percentage that the
    source prints in front of the percent sign. *)
Record Stop : Type := mkStop {
  key : string;
  offset : Q;
  stopColor : string
}.

(** The [Svg] of the ring: its box, the gradient stops and the circle. *)
Record Ring : Type := mkRing {
  width : Q;
  height : Q;
  stops : list Stop;
  cx : Q;
  cy : Q;
  radius : Q;
  strokeWidth : Q
}.

(** Lines 97-152.  [gradientId] only names the gradient and the stroke that
    refers to it, and the stop opacity is a constant; both are left out. *)
Definition GradientBorder (itemSize : Q) (gradientColors : list string) : Ring :=
  let gradientSize := (itemSize + GRADIENT_BORDER_PADDING)%Q in
  let gradientCenter := (gradientSize / 2)%Q in
  let gradientRadius := (gradientCenter - GRADIENT_RADIUS_OFFSET)%Q in
  {| width := gradientSize;
     height := gradientSize;
     stops :=
       Array.map
         (fun color index =>
            let colorCount := Array.length gradientColors in
            let offset :=
              if colorCount =? 1 then 0%Q
              else (inject_Z index / inject_Z (colorCount - 1) * 100)%Q in
            mkStop color offset color)
         gradientColors;
     cx := gradientCenter;
     cy := gradientCenter;
     radius := gradientRadius;
     strokeWidth := GRADIENT_STROKE_WIDTH |}.

End Gradient.

(** ** The example application *)

Module App.

Record PicsumPhoto : Type := mkPhoto {
  id : string;
  author : string;
  width : Z;
  height : Z;
  url : string;
  download_url : string;
  image : string
}.

Definition imageHeight : Q := 200.

(** The three [useState] cells of [App]. *)
Record State : Type := mkState {
  items : list PicsumPhoto;
  selectedItem : option PicsumPhoto;
  loading : bool
}.

Definition initial : State :=
  {| items := []; selectedItem := None; loading := true |}.

(** A state setter call. *)
Inductive SetState : Type :=
| setItems (l : list PicsumPhoto)
| setSelectedItem (item : PicsumPhoto)
| setLoading (b : bool).

Definition apply (st : State) (a : SetState) : State :=
  match a with
  | setItems l => mkState l (selectedItem st) (loading st)
  | setSelectedItem item => mkState (items st) (Some item) (loading st)
  | setLoading b => mkState (items st) (selectedItem st) b
  end.

(** What the request gave: the parsed list, or a rejection of [fetch] or
    of [response.json()]. *)
Inductive Response : Type :=
| Fetched (data : list PicsumPhoto)
| Rejected.

(** Lines 24-48: the setter calls [fetchImages] makes, in order. *)
Definition fetchImages (r : Response) : list SetState :=
  match r with
  | Fetched data =>
      let transformedItems :=
        List.map
          (fun photo =>
             mkPhoto (id photo) (author photo) (width photo) (height photo)
                     (url photo) (download_url photo) (download_url photo))
          data in
      [setItems transformedItems]
      ++ match Array.get transformedItems 0 with
         | Some firstItem => [setSelectedItem firstItem]
         | None => []
         end
      ++ [setLoading false]
  | Rejected => [setLoading false]
  end.

(** Lines 50-97: what [App] renders. *)
Inductive View : Type :=
| LoadingText
| CarouselView (props : CarouselProps PicsumPhoto).

Definition render (st : State) : View :=
  let missing := match selectedItem st with Some _ => false | None => true end in
  if loading st || missing || (Array.length (items st) =? 0) then LoadingText
  else
    match selectedItem st with
    | Some selected =>
        CarouselView
          (mkProps (items st) selected imageHeight DEFAULT_ITEM_SPACING
                   DEFAULT_MIN_SCALE DEFAULT_MAX_SCALE true)
    | None => LoadingText
    end.

(** [getItemId={(item) => item.id}]. *)
Definition getItemId (item : PicsumPhoto) : string := id item.

End App.

(** The state of the example application after the first [n] setter calls
    of [fetchImages]. *)
Definition appAfter (r : App.Response) (n : nat) : App.State :=
  fold_left App.apply (firstn n (App.fetchImages r)) App.initial.

(** ** Basic facts *)

Lemma Qlt_bool_iff (x y : Q) : Qlt_bool x y = true <-> (x < y)%Q.
Proof.
  unfold Qlt_bool. rewrite negb_true_iff.
  split; intro H.
  - apply Qnot_le_lt. intro L. apply Qle_bool_iff in L. congruence.
  - destruct (Qle_bool y x) eqn:E; [|reflexivity].
    apply Qle_bool_iff in E. exfalso. apply (Qlt_not_le _ _ H E).
Qed.

Lemma Qlt_bool_false_iff (x y : Q) : Qlt_bool x y = false <-> (y <= x)%Q.
Proof.
  unfold Qlt_bool. rewrite negb_false_iff. apply Qle_bool_iff.
Qed.

(** [Math.round x] is the integer [k] with [k - 1/2 <= x < k + 1/2]. *)
Lemma round_nearest (x : Q) :
  (inject_Z (Math.round x) - (1 # 2) <= x < inject_Z (Math.round x) + (1 # 2))%Q.
Proof.
  unfold Math.round.
  pose proof (Qfloor_le (x + (1 # 2))) as L.
  pose proof (Qlt_floor (x + (1 # 2))) as U.
  rewrite inject_Z_plus in U. change (inject_Z 1) with 1%Q in U.
  split; lra.
Qed.

Lemma round_unique (x : Q) (k : Z) :
  (inject_Z k - (1 # 2) <= x < inject_Z k + (1 # 2))%Q -> Math.round x = k.
Proof.
  intros [L U].
  destruct (round_nearest x) as [L' U'].
  assert (A : (inject_Z k < inject_Z (Math.round x) + 1)%Q) by lra.
  assert (B : (inject_Z (Math.round x) < inject_Z k + 1)%Q) by lra.
  rewrite <- (inject_Z_plus _ 1) in A. rewrite <- (inject_Z_plus _ 1) in B.
  rewrite <- Zlt_Qlt in A, B. lia.
Qed.

Lemma round_inject_Z (k : Z) : Math.round (inject_Z k) = k.
Proof. apply round_unique. split; lra. Qed.

Lemma length_nonneg {A} (l : list A) : 0 <= Array.length l.
Proof. unfold Array.length. lia. Qed.

Lemma length_pos {A} (l : list A) : l <> [] -> 1 <= Array.length l.
Proof. unfold Array.length. destruct l; [congruence|]. simpl. lia. Qed.

(** The code's index clamp is the spec's on a non-empty range, and 0 on an
    empty one. *)
Lemma maxi_mini_clampedTo (n index : Z) :
  1 <= n -> Math.maxi 0 (Math.mini index (n - 1)) = clampedTo 0 (n - 1) index.
Proof.
  intro H. unfold Math.maxi, Math.mini, clampedTo.
  destruct (index <? 0) eqn:E1; destruct (n - 1 <? index) eqn:E2; lia.
Qed.

Lemma clampedTo_range (lo hi x : Z) : lo <= hi -> lo <= clampedTo lo hi x <= hi.
Proof.
  intro H. unfold clampedTo.
  destruct (x <? lo) eqn:E1; destruct (hi <? x) eqn:E2; lia.
Qed.

(** ** Drag release *)

Section Release.

Context {T : Type}.
Variable getItemId : T -> string.
Variable props : CarouselProps T.

Let n := Array.length (items props).
Let s := itemSpacing props.

(** What [snapToIndex] writes. *)
Lemma snapToIndex_exec (index : Z) (c : Instance T) :
  exec (snapToIndex props index) c =
  mkInstance (- inject_Z (Math.maxi 0 (Math.mini index (n - 1))) * s)%Q
             (Math.maxi 0 (Math.mini index (n - 1)))
             (previousItemId c) (trace c).
Proof. reflexivity. Qed.

(** [updateSelectedItem] only ever appends to the trace. *)
Lemma updateSelectedItem_exec (index : Z) (c : Instance T) :
  exec (updateSelectedItem getItemId props index) c =
  mkInstance (translateX c) (currentIndex c) (previousItemId c)
    (trace c ++
     match Array.get (items props) (Math.maxi 0 (Math.mini index (n - 1))) with
     | Some item =>
         if sameId getItemId item (selectedItem props) then [] else [OnItemChange item]
     | None => []
     end).
Proof.
  unfold exec, updateSelectedItem, n.
  destruct (Array.get _ _) as [item|]; simpl.
  - destruct (sameId getItemId item (selectedItem props)); simpl;
      rewrite ?app_nil_r; destruct c; reflexivity.
  - rewrite app_nil_r. destruct c; reflexivity.
Qed.

Lemma onEnd_exec (event : PanGestureEvent) (c : Instance T) :
  exec (onEnd getItemId props event) c =
  exec (updateSelectedItem getItemId props
          (releaseIndex props (translateX c) (velocityX event)))
       (exec (snapToIndex props
                (releaseIndex props (translateX c) (velocityX event))) c).
Proof. reflexivity. Qed.

(** The index [onEnd] hands on, clamped once more by [snapToIndex], is the
    spec's target. *)
Lemma release_clamp (o v : Q) :
  1 <= n ->
  Math.maxi 0 (Math.mini (releaseIndex props o v) (n - 1)) = specTarget n s o v.
Proof.
  intro Hn. unfold releaseIndex, specTarget, specNudge.
  fold n. fold s. unfold Math.abs, VELOCITY_THRESHOLD.
  set (base := Math.round (- o / s)%Q).
  unfold Qlt_bool at 1.
  destruct (Qle_bool (Qabs v) 500) eqn:Ev; simpl.
  - rewrite Z.add_0_r. apply maxi_mini_clampedTo, Hn.
  - destruct (Qlt_bool v 0) eqn:Eneg.
    + unfold Math.maxi, Math.mini, clampedTo.
      destruct (base + 1 <? 0) eqn:E1; destruct (n - 1 <? base + 1) eqn:E2; lia.
    + destruct (Qlt_bool 0 v) eqn:Epos.
      * unfold Math.maxi, Math.mini, clampedTo.
        destruct (base + -1 <? 0) eqn:E1; destruct (n - 1 <? base + -1) eqn:E2; lia.
      * exfalso.
        apply Qlt_bool_false_iff in Eneg, Epos.
        assert (Hv : (v == 0)%Q) by lra.
        assert (Ha : (Qabs v <= 500)%Q).
        { rewrite Hv. simpl. lra. }
        apply Qle_bool_iff in Ha. congruence.
Qed.

End Release.

Lemma specNudge_slow (v : Q) : (Qabs v <= 500)%Q -> specNudge v = 0.
Proof.
  intro H. unfold specNudge. apply Qle_bool_iff in H. rewrite H. reflexivity.
Qed.

Lemma specNudge_fast (v : Q) :
  (500 < Qabs v)%Q ->
  specNudge v = if Qlt_bool v 0 then 1 else -1.
Proof.
  intro H. unfold specNudge.
  destruct (Qle_bool (Qabs v) 500) eqn:E.
  - apply Qle_bool_iff in E. lra.
  - destruct (Qlt_bool v 0) eqn:Eneg; [reflexivity|].
    destruct (Qlt_bool 0 v) eqn:Epos; [reflexivity|].
    apply Qlt_bool_false_iff in Eneg, Epos.
    assert (Hv : (v == 0)%Q) by lra.
    rewrite Hv in H. simpl in H. lra.
Qed.

(** C1.  On a non-empty list of length [n] with a non-zero spacing [s],
    releasing a drag at offset [o = translateX c] with velocity [v] leaves
    the snap target (the cached index) at [round (- o / s)] when
    [|v| <= 500], at that base index plus one when [|v| > 500] and [v < 0],
    minus one when [|v| > 500] and [v > 0], in every case clamped to
    [[0, n - 1]]; and the offset is set to [- target * s]. *)
Theorem C1_release_snaps_to_target
  {T : Type} (getItemId : T -> string) (props : CarouselProps T)
  (event : PanGestureEvent) (c : Instance T) :
  items props <> [] ->
  ~ (itemSpacing props == 0)%Q ->
  let n := Array.length (items props) in
  let s := itemSpacing props in
  let v := velocityX event in
  let base := Math.round (- translateX c / s)%Q in
  let c' := exec (onEnd getItemId props event) c in
  let target := currentIndex c' in
  ((Qabs v <= 500)%Q -> target = clampedTo 0 (n - 1) base) /\
  ((500 < Qabs v)%Q -> (v < 0)%Q -> target = clampedTo 0 (n - 1) (base + 1)) /\
  ((500 < Qabs v)%Q -> (0 < v)%Q -> target = clampedTo 0 (n - 1) (base - 1)) /\
  0 <= target <= n - 1 /\
  (translateX c' == - inject_Z target * s)%Q.
Proof.
  intros Hne _ n s v base c' target.
  pose proof (length_pos _ Hne) as Hn. fold n in Hn.
  assert (Ht : target = specTarget n s (translateX c) v).
  { subst target c'.
    rewrite onEnd_exec, updateSelectedItem_exec, snapToIndex_exec.
    cbn [currentIndex]. apply release_clamp. exact Hn. }
  assert (Hx : (translateX c' == - inject_Z target * s)%Q).
  { subst target c'.
    rewrite onEnd_exec, updateSelectedItem_exec, snapToIndex_exec.
    cbn [currentIndex translateX]. reflexivity. }
  unfold specTarget in Ht. fold base in Ht.
  repeat split.
  - intro Hv. rewrite Ht, (specNudge_slow _ Hv), Z.add_0_r. reflexivity.
  - intros Hv Hneg. rewrite Ht, (specNudge_fast _ Hv).
    apply Qlt_bool_iff in Hneg. rewrite Hneg. reflexivity.
  - intros Hv Hpos. rewrite Ht, (specNudge_fast _ Hv).
    assert (E : Qlt_bool v 0 = false) by (apply Qlt_bool_false_iff; lra).
    rewrite E. reflexivity.
  - rewrite Ht. apply clampedTo_range. lia.
  - rewrite Ht. apply clampedTo_range. lia.
  - exact Hx.
Qed.

(** A flick released at rest on index 0 goes to index 1. *)
Example flick_from_rest :
  let p := testProps items3 (testItem "0") in
  let c := exec (onEnd mockGetItemId p (mkEvent 0 (-600))) (mount mockGetItemId p) in
  currentIndex c = 1 /\ trace c = [OnItemChange (testItem "1")] /\
  Qeq_bool (translateX c) (-200) = true.
Proof. vm_compute. repeat split. Qed.

(** Half a spacing rounds up to index 1; a fast release adds one more. *)
Example drag_half_spacing_slow :
  let p := testProps items3 (testItem "0") in
  let c := dragFrom mockGetItemId p (-100) 0 (mount mockGetItemId p) in
  currentIndex c = 1 /\ trace c = [OnItemChange (testItem "1")].
Proof. vm_compute. repeat split. Qed.

Example drag_half_spacing_fast :
  let p := testProps items3 (testItem "0") in
  let c := dragFrom mockGetItemId p (-100) (-600) (mount mockGetItemId p) in
  currentIndex c = 2 /\ trace c = [OnItemChange (testItem "2")] /\
  Qeq_bool (translateX c) (-400) = true.
Proof. vm_compute. repeat split. Qed.

Example drag_past_the_end :
  let p := testProps items3 (testItem "2") in
  let c := dragFrom mockGetItemId p (-1000) (-600) (mount mockGetItemId p) in
  currentIndex c = 2 /\ trace c = [] /\ Qeq_bool (translateX c) (-400) = true.
Proof. vm_compute. repeat split. Qed.

Example flick_back_from_rest :
  let p := testProps items3 (testItem "1") in
  let c := exec (onEnd mockGetItemId p (mkEvent 0 600)) (mount mockGetItemId p) in
  currentIndex c = 0 /\ trace c = [OnItemChange (testItem "0")].
Proof. vm_compute. repeat split. Qed.

Lemma C1_release_snaps_to_target_witness :
  let p := testProps items3 (testItem "0") in
  let c := exec (onUpdate p (mkEvent (-100) 0)) (mount mockGetItemId p) in
  let c' := exec (onEnd mockGetItemId p (mkEvent (-100) (-600))) c in
  items p <> [] /\ ~ (itemSpacing p == 0)%Q /\
  currentIndex c' = clampedTo 0 2 (Math.round (- translateX c / 200)%Q + 1) /\
  (translateX c' == - inject_Z (currentIndex c') * 200)%Q.
Proof.
  intros p c c'.
  assert (Hne : items p <> []) by discriminate.
  assert (Hs : ~ (itemSpacing p == 0)%Q) by (intro H; vm_compute in H; discriminate).
  destruct (C1_release_snaps_to_target mockGetItemId p (mkEvent (-100) (-600)) c Hne Hs)
    as (_ & Hfast & _ & _ & Hx).
  split; [exact Hne|]. split; [exact Hs|]. split.
  - apply Hfast; vm_compute; reflexivity.
  - exact Hx.
Defined.

(** ** The change notification *)

Lemma get_some_In {A} (l : list A) (i : Z) (a : A) :
  Array.get l i = Some a -> In a l.
Proof.
  unfold Array.get. destruct (i <? 0); [discriminate|].
  apply nth_error_In.
Qed.

Lemma get_in_range {A} (l : list A) (i : Z) :
  0 <= i <= Array.length l - 1 -> exists a, Array.get l i = Some a.
Proof.
  unfold Array.get, Array.length. intros [L U].
  destruct (i <? 0) eqn:E; [lia|].
  destruct (nth_error l (Z.to_nat i)) as [a|] eqn:N; [eauto|].
  apply nth_error_None in N. lia.
Qed.

Lemma get_nil {A} (i : Z) : Array.get (@nil A) i = None.
Proof.
  unfold Array.get. destruct (i <? 0); [reflexivity|].
  destruct (Z.to_nat i); reflexivity.
Qed.

Lemma sameId_true_iff {T} (getItemId : T -> string) (a b : T) :
  sameId getItemId a b = true <-> getItemId a = getItemId b.
Proof. unfold sameId. apply String.eqb_eq. Qed.

Lemma sameId_false_iff {T} (getItemId : T -> string) (a b : T) :
  sameId getItemId a b = false <-> getItemId a <> getItemId b.
Proof. unfold sameId. apply String.eqb_neq. Qed.

(** C2.  On a non-empty list (non-zero spacing), a drag release resolves to
    a target index that holds an item; the trace grows by exactly one
    [onItemChange] call, with that item, when its id differs from the
    selected item's id, and does not grow at all when the ids are equal. *)
Theorem C2_change_fires_once_iff_id_differs
  {T : Type} (getItemId : T -> string) (props : CarouselProps T)
  (event : PanGestureEvent) (c : Instance T) :
  items props <> [] ->
  ~ (itemSpacing props == 0)%Q ->
  let c' := exec (onEnd getItemId props event) c in
  exists item,
    Array.get (items props) (currentIndex c') = Some item /\
    (getItemId item <> getItemId (selectedItem props) ->
       trace c' = trace c ++ [OnItemChange item]) /\
    (getItemId item = getItemId (selectedItem props) ->
       trace c' = trace c).
Proof.
  intros Hne _ c'.
  pose proof (length_pos _ Hne) as Hn.
  subst c'. rewrite onEnd_exec, updateSelectedItem_exec, snapToIndex_exec.
  cbn [currentIndex trace].
  set (k := Math.maxi 0 (Math.mini _ _)).
  assert (Hk : 0 <= k <= Array.length (items props) - 1).
  { subst k. unfold Math.maxi, Math.mini. lia. }
  destruct (get_in_range _ _ Hk) as [item Hitem].
  exists item. rewrite Hitem. split; [reflexivity|]. split; intro Hid.
  - apply sameId_false_iff in Hid. rewrite Hid. reflexivity.
  - apply sameId_true_iff in Hid. rewrite Hid. apply app_nil_r.
Qed.

Lemma C2_change_fires_once_iff_id_differs_witness :
  let p := testProps items3 (testItem "0") in
  let c := mount mockGetItemId p in
  let c' := exec (onEnd mockGetItemId p (mkEvent 0 (-600))) c in
  items p <> [] /\ ~ (itemSpacing p == 0)%Q /\
  exists item,
    Array.get (items p) (currentIndex c') = Some item /\
    (mockGetItemId item <> mockGetItemId (selectedItem p) ->
       trace c' = trace c ++ [OnItemChange item]) /\
    (mockGetItemId item = mockGetItemId (selectedItem p) ->
       trace c' = trace c).
Proof.
  intros p c c'.
  assert (Hne : items p <> []) by discriminate.
  assert (Hs : ~ (itemSpacing p == 0)%Q) by (intro H; vm_compute in H; discriminate).
  split; [exact Hne|]. split; [exact Hs|].
  exact (C2_change_fires_once_iff_id_differs mockGetItemId p (mkEvent 0 (-600)) c Hne Hs).
Defined.

(** C10.  Whatever index [updateSelectedItem] is handed on the release
    path, every [onItemChange] call it makes carries an element of the item
    list, the one stored at the index clamped into [[0, length - 1]]; when
    the lookup finds nothing (as on the empty list) the trace is left as it
    was, and the call always returns. *)
Theorem C10_change_argument_is_list_item
  {T : Type} (getItemId : T -> string) (props : CarouselProps T)
  (index : Z) (c : Instance T) :
  let n := Array.length (items props) in
  let c' := exec (updateSelectedItem getItemId props index) c in
  exists calls,
    trace c' = trace c ++ calls /\
    (forall e, In e calls ->
       exists item, e = OnItemChange item /\ In item (items props) /\
         1 <= n /\
         Array.get (items props) (clampedTo 0 (n - 1) index) = Some item) /\
    (Array.get (items props) (Math.maxi 0 (Math.mini index (n - 1))) = None ->
       calls = []) /\
    (items props = [] -> calls = []).
Proof.
  intros n c'. subst c'. rewrite updateSelectedItem_exec. cbn [trace].
  fold n. set (k := Math.maxi 0 (Math.mini index (n - 1))).
  destruct (Array.get (items props) k) as [item|] eqn:G.
  - assert (Hn : 1 <= n).
    { destruct (items props) eqn:E; [rewrite get_nil in G; discriminate|].
      subst n. rewrite <- E. apply length_pos. rewrite E. discriminate. }
    eexists. split; [reflexivity|]. split; [|split].
    + intros e He.
      destruct (sameId getItemId item (selectedItem props)); [destruct He|].
      destruct He as [<-|[]].
      exists item. split; [reflexivity|]. split; [eapply get_some_In; eauto|].
      split; [exact Hn|].
      rewrite <- maxi_mini_clampedTo by exact Hn. exact G.
    + discriminate.
    + intro E. rewrite E, get_nil in G. discriminate.
  - exists []. repeat split; auto. intros e [].
Qed.

Lemma C10_change_argument_is_list_item_witness :
  let p := testProps items3 (testItem "0") in
  let c := mount mockGetItemId p in
  exists calls,
    trace (exec (updateSelectedItem mockGetItemId p 7) c) = trace c ++ calls /\
    (In (OnItemChange (testItem "2")) calls ->
     In (testItem "2") (items p)) /\
    In (OnItemChange (testItem "2")) calls.
Proof.
  intros p c.
  destruct (C10_change_argument_is_list_item mockGetItemId p 7 c)
    as (calls & Ht & Hin & _).
  exists calls. split; [exact Ht|]. split.
  - intro H. destruct (Hin _ H) as (item & E & I & _).
    injection E as ->. exact I.
  - vm_compute in Ht. rewrite <- Ht. left. reflexivity.
Defined.

(** ** Rendering *)

Lemma renderItemCalls_app {T} (a b : list (Call T)) :
  renderItemCalls (a ++ b) = renderItemCalls a ++ renderItemCalls b.
Proof.
  induction a as [|e a IH]; [reflexivity|].
  destruct e; simpl; rewrite IH; reflexivity.
Qed.

Lemma renderItemCalls_mapFrom {T} (l : list T) (k : Z) :
  renderItemCalls (Array.mapFrom (@RenderItem T) l k) = Array.mapFrom pair l k.
Proof.
  revert k. induction l as [|x l IH]; intro k; [reflexivity|].
  simpl. rewrite IH. reflexivity.
Qed.

Lemma mapFrom_length {A B} (f : A -> Z -> B) (l : list A) (k : Z) :
  List.length (Array.mapFrom f l k) = List.length l.
Proof.
  revert k. induction l as [|x l IH]; intro k; simpl; [reflexivity|].
  rewrite IH. reflexivity.
Qed.

Lemma mapFrom_nth_error {A B} (f : A -> Z -> B) (l : list A) (k : Z) (i : nat) (a : A) :
  nth_error l i = Some a ->
  nth_error (Array.mapFrom f l k) i = Some (f a (k + Z.of_nat i)).
Proof.
  revert k i. induction l as [|x l IH]; intros k i H.
  - destruct i; discriminate.
  - destruct i as [|i]; simpl in *.
    + injection H as ->. rewrite Z.add_0_r. reflexivity.
    + rewrite (IH (k + 1) i H). do 2 f_equal. lia.
Qed.

Lemma exec_bind {T A B} (m : Hook (T:=T) A) (k : A -> Hook (T:=T) B) (c : Instance T) :
  exec (bind m k) c = exec (k (fst (m c))) (exec m c).
Proof. unfold exec, bind. destruct (m c). reflexivity. Qed.

(** Rendering the items only appends their [renderItem] calls, in order. *)
Lemma sequence_CarouselItem_exec {T} (l : list T) (k : Z) (c : Instance T) :
  exec (sequence (Array.mapFrom CarouselItem l k)) c =
  mkInstance (translateX c) (currentIndex c) (previousItemId c)
             (trace c ++ Array.mapFrom (@RenderItem T) l k).
Proof.
  revert k c. induction l as [|x l IH]; intros k c.
  - simpl. rewrite app_nil_r. destruct c; reflexivity.
  - simpl sequence. rewrite exec_bind.
    rewrite IH. cbn. rewrite <- app_assoc. reflexivity.
Qed.

Lemma render_exec {T} (props : CarouselProps T) (c : Instance T) :
  exec (render props) c =
  mkInstance (translateX c) (currentIndex c) (previousItemId c)
             (trace c ++ renderCalls props).
Proof.
  unfold render, renderCalls, Array.map. rewrite exec_bind.
  rewrite sequence_CarouselItem_exec.
  destruct (hasRenderDetail props); cbn.
  - rewrite <- app_assoc. reflexivity.
  - reflexivity.
Qed.

Lemma renderItemCalls_renderCalls {T} (props : CarouselProps T) :
  renderItemCalls (renderCalls props) = Array.map pair (items props).
Proof.
  unfold renderCalls, Array.map. rewrite renderItemCalls_app.
  rewrite renderItemCalls_mapFrom.
  destruct (hasRenderDetail props); reflexivity.
Qed.

(** C9.  One render pass adds to the trace exactly one [renderItem] call
    per item: as many calls as the list has items, the i-th of them with
    the item at index i and that index. *)
Theorem C9_render_item_once_per_item
  {T : Type} (props : CarouselProps T) (c : Instance T) :
  exists calls,
    trace (exec (render props) c) = trace c ++ calls /\
    List.length (renderItemCalls calls) = List.length (items props) /\
    forall (i : nat) (item : T),
      nth_error (items props) i = Some item ->
      nth_error (renderItemCalls calls) i = Some (item, Z.of_nat i).
Proof.
  exists (renderCalls props).
  split; [rewrite render_exec; reflexivity|].
  rewrite renderItemCalls_renderCalls. unfold Array.map. split.
  - apply mapFrom_length.
  - intros i item H. rewrite (mapFrom_nth_error pair _ 0 i item H). reflexivity.
Qed.

Lemma C9_render_item_once_per_item_witness :
  let p := testProps items3 (testItem "0") in
  exists calls,
    trace (exec (render p) (mount mockGetItemId p)) = calls /\
    List.length (renderItemCalls calls) = 3%nat /\
    nth_error (renderItemCalls calls) 2 = Some (testItem "2", 2).
Proof.
  intro p.
  destruct (C9_render_item_once_per_item p (mount mockGetItemId p))
    as (calls & Ht & Hl & Hn).
  exists calls. split; [exact Ht|]. split; [exact Hl|].
  exact (Hn 2%nat (testItem "2") eq_refl).
Defined.

Example render_three_items :
  let p := testProps items3 (testItem "0") in
  trace (exec (render p) (mount mockGetItemId p)) =
  [RenderItem (testItem "0") 0; RenderItem (testItem "1") 1;
   RenderItem (testItem "2") 2].
Proof. reflexivity. Qed.

(** ** Live offset during a drag *)

Lemma onUpdate_exec {T} (props : CarouselProps T) (event : PanGestureEvent)
  (c : Instance T) :
  exec (onUpdate props event) c =
  mkInstance
    (Math.max (- inject_Z (Array.length (items props) - 1) * itemSpacing props)%Q
       (Math.min 0%Q
          (- inject_Z (currentIndex c) * itemSpacing props + translationX event)%Q))
    (currentIndex c) (previousItemId c) (trace c).
Proof. reflexivity. Qed.

Lemma max_min_cases (lo x : Q) :
  let u := Math.max lo (Math.min 0%Q x) in
  ((x < lo /\ u == lo) \/
   (lo <= x <= 0 /\ u == x) \/
   (0 < x /\ 0 < lo /\ u == lo) \/
   (0 < x /\ lo <= 0 /\ u == 0))%Q.
Proof.
  unfold Math.max, Math.min.
  destruct (Q.min_spec 0%Q x) as [[Hx Hm]|[Hx Hm]];
    destruct (Q.max_spec lo (Qmin 0%Q x)) as [[Hl HM]|[Hl HM]];
    rewrite HM; rewrite Hm in *.
  - destruct (Qlt_le_dec 0 lo) as [Hp|Hp]; [lra|].
    right; right; right. split; [exact Hx|]. split; [exact Hp|reflexivity].
  - destruct (Qlt_le_dec 0 lo) as [Hp|Hp].
    + right; right; left. split; [exact Hx|]. split; [exact Hp|reflexivity].
    + right; right; right. split; [exact Hx|]. split; [exact Hp|lra].
  - right; left. split; [lra|reflexivity].
  - destruct (Qlt_le_dec x lo) as [Hp|Hp].
    + left. split; [exact Hp|reflexivity].
    + right; left. split; [lra|lra].
Qed.

(** C3, as amended.  Whenever the interval [[- (n - 1) * s, 0]] is not
    empty (every non-empty list with a non-negative spacing), the live
    offset written by [onUpdate] is [- i * s + d] clamped to it; the
    handler is total, so nothing is rejected.  When the interval is empty
    (the empty list with a positive spacing) the live offset is the lower
    bound [- (n - 1) * s]. *)
Theorem C3_update_clamps_offset
  {T : Type} (props : CarouselProps T) (c : Instance T) (event : PanGestureEvent) :
  let lo := (- inject_Z (Array.length (items props) - 1) * itemSpacing props)%Q in
  ((lo <= 0)%Q -> updateClampsOffset props c event) /\
  ((0 < lo)%Q -> (translateX (exec (onUpdate props event) c) == lo)%Q).
Proof.
  intro lo. unfold updateClampsOffset, clampsInto.
  rewrite onUpdate_exec. cbn [translateX]. fold lo.
  set (x := (- inject_Z (currentIndex c) * itemSpacing props + translationX event)%Q).
  destruct (max_min_cases lo x) as [[H E]|[[H E]|[(H & H' & E)|(H & H' & E)]]];
    split; intros Hlo; rewrite ?E; repeat split; try lra; intros; lra.
Qed.

(** C3 fails as stated: on the empty list with the default spacing the
    interval is [[200, 0]] and the live offset is 200, above its upper
    bound. *)
Lemma C3_empty_list_counterexample :
  let p := testProps [] nonExistentItem in
  (translateX (exec (onUpdate p (mkEvent 0 0)) (mount mockGetItemId p)) == 200)%Q /\
  ~ updateClampsOffset p (mount mockGetItemId p) (mkEvent 0 0).
Proof.
  split; [reflexivity|].
  unfold updateClampsOffset, clampsInto. intros [[_ H] _].
  vm_compute in H. apply H. reflexivity.
Qed.

Lemma C3_update_clamps_offset_witness :
  let p := testProps items3 (testItem "0") in
  let c := mount mockGetItemId p in
  (- inject_Z (Array.length (items p) - 1) * itemSpacing p <= 0)%Q /\
  updateClampsOffset p c (mkEvent (-1000) 0) /\
  (translateX (exec (onUpdate p (mkEvent (-1000) 0)) c) == -400)%Q.
Proof.
  intros p c.
  assert (H : (- inject_Z (Array.length (items p) - 1) * itemSpacing p <= 0)%Q)
    by (vm_compute; discriminate).
  split; [exact H|]. split.
  - exact (proj1 (C3_update_clamps_offset p c (mkEvent (-1000) 0)) H).
  - reflexivity.
Defined.

(** ** Selected item: mount and resynchronization *)

Lemma get_cons_succ {A} (x : A) (l : list A) (i : Z) :
  0 <= i -> Array.get (x :: l) (i + 1) = Array.get l i.
Proof.
  intro H. unfold Array.get.
  destruct (i + 1 <? 0) eqn:E1; [lia|]. destruct (i <? 0) eqn:E2; [lia|].
  replace (Z.to_nat (i + 1)) with (S (Z.to_nat i)) by lia. reflexivity.
Qed.

Lemma get_nonneg {A} (l : list A) (i : Z) (a : A) :
  Array.get l i = Some a -> 0 <= i <= Array.length l - 1.
Proof.
  unfold Array.get, Array.length. destruct (i <? 0) eqn:E; [discriminate|].
  intro H. assert (N : nth_error l (Z.to_nat i) <> None) by congruence.
  apply nth_error_Some in N. lia.
Qed.

Lemma firstIndexOf_range {A} (p : A -> bool) (l : list A) (i : Z) :
  firstIndexOf p l i -> 0 <= i <= Array.length l - 1.
Proof. intros (a & G & _). eapply get_nonneg, G. Qed.

Lemma firstIndexOf_unique {A} (p : A -> bool) (l : list A) (i j : Z) :
  firstIndexOf p l i -> firstIndexOf p l j -> i = j.
Proof.
  intros (a & Ga & Pa & Fa) (b & Gb & Pb & Fb).
  pose proof (get_nonneg _ _ _ Ga). pose proof (get_nonneg _ _ _ Gb).
  destruct (Z.lt_trichotomy i j) as [L|[E|L]]; [|exact E|].
  - rewrite (Fb i a) in Pa by (auto; lia). discriminate.
  - rewrite (Fa j b) in Pb by (auto; lia). discriminate.
Qed.

Lemma findIndexFrom_cases {A} (p : A -> bool) (l : list A) (k : Z) :
  0 <= k ->
  (Array.findIndexFrom p l k = -1 /\ forall a, In a l -> p a = false) \/
  firstIndexOf p l (Array.findIndexFrom p l k - k).
Proof.
  revert k. induction l as [|x l IH]; intros k Hk.
  - left. split; [reflexivity|]. intros a [].
  - simpl. destruct (p x) eqn:Px.
    + right. rewrite Z.sub_diag. exists x. split; [reflexivity|].
      split; [exact Px|]. intros; lia.
    + destruct (IH (k + 1)) as [[E F]|(a & G & Pa & F)]; [lia| |].
      * left. split; [exact E|]. intros a [<-|Ha]; auto.
      * right. set (r := Array.findIndexFrom p l (k + 1)) in *.
        pose proof (get_nonneg _ _ _ G) as R.
        exists a. replace (r - k) with ((r - (k + 1)) + 1) by lia.
        rewrite get_cons_succ by lia. split; [exact G|]. split; [exact Pa|].
        intros j b Hj Gj.
        destruct (Z.eq_dec j 0) as [->|Nz].
        -- cbn in Gj. injection Gj as <-. exact Px.
        -- replace j with ((j - 1) + 1) in Gj by lia.
           rewrite get_cons_succ in Gj by lia.
           apply (F (j - 1) b); [lia|exact Gj].
Qed.

Lemma findIndex_cases {A} (p : A -> bool) (l : list A) :
  (Array.findIndex p l = -1 /\ forall a, In a l -> p a = false) \/
  firstIndexOf p l (Array.findIndex p l).
Proof.
  unfold Array.findIndex.
  destruct (findIndexFrom_cases p l 0) as [H|H]; [lia|left; exact H|].
  right. rewrite Z.sub_0_r in H. exact H.
Qed.

Lemma findIndex_first {A} (p : A -> bool) (l : list A) (i : Z) :
  firstIndexOf p l i -> Array.findIndex p l = i.
Proof.
  intro H. destruct (findIndex_cases p l) as [[_ F]|F].
  - destruct H as (a & G & Pa & _).
    rewrite (F a (get_some_In _ _ _ G)) in Pa. discriminate.
  - eapply firstIndexOf_unique; eauto.
Qed.

Lemma findIndex_absent {A} (p : A -> bool) (l : list A) :
  (forall a, In a l -> p a = false) -> Array.findIndex p l = -1.
Proof.
  intro H. destruct (findIndex_cases p l) as [[E _]|(a & G & Pa & _)]; [exact E|].
  rewrite (H a (get_some_In _ _ _ G)) in Pa. discriminate.
Qed.

Lemma useEffect_exec {T} (getItemId : T -> string) (props : CarouselProps T)
  (c : Instance T) :
  let currentItemId := getItemId (selectedItem props) in
  let index :=
    Array.findIndex (fun item => String.eqb (getItemId item) currentItemId)
                    (items props) in
  exec (useEffect getItemId props) c =
  if String.eqb (previousItemId c) currentItemId then c
  else if index =? -1
       then mkInstance (translateX c) (currentIndex c) currentItemId (trace c)
       else mkInstance (- inject_Z index * itemSpacing props)%Q index
                       currentItemId (trace c).
Proof.
  intros currentItemId index. unfold useEffect, exec, bind, get_previousItemId.
  fold currentItemId. fold index.
  destruct (String.eqb (previousItemId c) currentItemId); [reflexivity|].
  destruct (index =? -1); reflexivity.
Qed.

(** C4.  Running the effect after any change of props leaves the trace of
    callback invocations as it was, so [onItemChange] is never invoked from
    it.  When the selected item's id differs from the remembered one and is
    the id of a list item, first met at index [i], the effect sets the
    cached index to [i] and the offset to [- i * s] (and remembers the new
    id); nothing else changes. *)
Theorem C4_resync_without_callback
  {T : Type} (getItemId : T -> string) (props : CarouselProps T) (c : Instance T) :
  let c' := exec (useEffect getItemId props) c in
  trace c' = trace c /\
  forall i,
    previousItemId c <> getItemId (selectedItem props) ->
    firstIndexOf
      (fun item => String.eqb (getItemId item) (getItemId (selectedItem props)))
      (items props) i ->
    currentIndex c' = i /\
    (translateX c' == - inject_Z i * itemSpacing props)%Q /\
    previousItemId c' = getItemId (selectedItem props).
Proof.
  intro c'. subst c'. rewrite useEffect_exec.
  split.
  - destruct (String.eqb _ _); [reflexivity|].
    destruct (_ =? -1); reflexivity.
  - intros i Hchg Hi.
    apply String.eqb_neq in Hchg. rewrite Hchg.
    rewrite (findIndex_first _ _ _ Hi).
    pose proof (firstIndexOf_range _ _ _ Hi) as R.
    destruct (i =? -1) eqn:E; [lia|].
    cbn. repeat split; reflexivity.
Qed.

Lemma C4_resync_without_callback_witness :
  let p := testProps items3 (testItem "2") in
  let c := mount mockGetItemId (testProps items3 (testItem "0")) in
  let c' := exec (useEffect mockGetItemId p) c in
  previousItemId c <> mockGetItemId (selectedItem p) /\
  firstIndexOf
    (fun item => String.eqb (mockGetItemId item) (mockGetItemId (selectedItem p)))
    (items p) 2 /\
  trace c' = trace c /\ currentIndex c' = 2 /\
  (translateX c' == - inject_Z 2 * itemSpacing p)%Q.
Proof.
  intros p c c'.
  assert (H1 : previousItemId c <> mockGetItemId (selectedItem p)) by discriminate.
  assert (H2 : firstIndexOf
    (fun item => String.eqb (mockGetItemId item) (mockGetItemId (selectedItem p)))
    (items p) 2).
  { exists (testItem "2"). split; [reflexivity|]. split; [reflexivity|].
    intros j b Hj G.
    assert (J : j = 0 \/ j = 1) by lia.
    destruct J as [-> | ->]; cbn in G; injection G as <-; reflexivity. }
  destruct (C4_resync_without_callback mockGetItemId p c) as [Ht Hr].
  destruct (Hr 2 H1 H2) as (Hi & Hx & _).
  repeat split; assumption.
Defined.

(** Other outcomes of the effect: an unchanged id leaves the instance
    alone; an id that no list item has is remembered and nothing else
    changes. *)
Lemma useEffect_same_id {T} (getItemId : T -> string) (props : CarouselProps T)
  (c : Instance T) :
  previousItemId c = getItemId (selectedItem props) ->
  exec (useEffect getItemId props) c = c.
Proof.
  intro H. rewrite useEffect_exec.
  apply String.eqb_eq in H. rewrite H. reflexivity.
Qed.

Lemma firstRender_eq {T} (getItemId : T -> string) (props : CarouselProps T) :
  firstRender getItemId props = exec (render props) (mount getItemId props).
Proof.
  unfold firstRender. apply useEffect_same_id.
  rewrite render_exec. reflexivity.
Qed.

Lemma useEffect_absent_id {T} (getItemId : T -> string) (props : CarouselProps T)
  (c : Instance T) :
  (forall item, In item (items props) ->
     getItemId item <> getItemId (selectedItem props)) ->
  let c' := exec (useEffect getItemId props) c in
  translateX c' = translateX c /\ currentIndex c' = currentIndex c /\
  trace c' = trace c.
Proof.
  intros H c'. subst c'. rewrite useEffect_exec.
  rewrite findIndex_absent by (intros a Ha; apply String.eqb_neq, H, Ha).
  destruct (String.eqb _ _); cbn; repeat split; reflexivity.
Qed.

Lemma mount_absent {T} (getItemId : T -> string) (props : CarouselProps T) :
  (forall item, In item (items props) ->
     getItemId item <> getItemId (selectedItem props)) ->
  initialIndex getItemId props = -1.
Proof.
  intro H. unfold initialIndex. apply findIndex_absent.
  intros a Ha. apply sameId_false_iff, H, Ha.
Qed.

(** C5, what the code does.  When no list item has the selected item's id,
    every item is still rendered and the cached index starts at 0, but the
    initial offset is [+ spacing], the offset of index -1, not the offset 0
    of index 0: line 248 negates the raw [findIndex] result, while line 249
    guards it. *)
Theorem C5_absent_selected_mounts_one_spacing_off
  {T : Type} (getItemId : T -> string) (props : CarouselProps T) :
  (forall item, In item (items props) ->
     getItemId item <> getItemId (selectedItem props)) ->
  let c := mount getItemId props in
  currentIndex c = 0 /\
  (translateX c == itemSpacing props)%Q /\
  (~ (itemSpacing props == 0)%Q ->
   ~ (translateX c == - inject_Z (currentIndex c) * itemSpacing props)%Q) /\
  renderItemCalls (trace (exec (render props) c)) = Array.map pair (items props).
Proof.
  intros H c. subst c. unfold mount. cbn [currentIndex translateX].
  rewrite (mount_absent _ _ H). cbn [Z.leb Z.compare].
  split; [reflexivity|]. split; [|split].
  - change (inject_Z (-1)) with (-1 # 1)%Q. lra.
  - intros Hs E. change (inject_Z (-1)) with (-1 # 1)%Q in E.
    change (inject_Z 0) with 0%Q in E. apply Hs. lra.
  - rewrite render_exec. cbn [trace app].
    apply renderItemCalls_renderCalls.
Qed.

Lemma C5_absent_selected_mounts_one_spacing_off_witness :
  let p := testProps items3 nonExistentItem in
  let c := mount mockGetItemId p in
  (forall item, In item (items p) ->
     mockGetItemId item <> mockGetItemId (selectedItem p)) /\
  currentIndex c = 0 /\
  (translateX c == 200)%Q /\
  List.length (renderItemCalls (trace (exec (render p) c))) = 3%nat.
Proof.
  intros p c.
  assert (H : forall item, In item (items p) ->
     mockGetItemId item <> mockGetItemId (selectedItem p)).
  { intros item [<-|[<-|[<-|[]]]]; discriminate. }
  destruct (C5_absent_selected_mounts_one_spacing_off mockGetItemId p H)
    as (Hi & Hx & _ & Hr).
  split; [exact H|]. split; [exact Hi|]. split; [exact Hx|].
  fold c in Hr. rewrite Hr. reflexivity.
Defined.

(** With the selected item in the list the mount is anchored on it. *)
Lemma mount_present {T} (getItemId : T -> string) (props : CarouselProps T) (i : Z) :
  firstIndexOf (fun item => sameId getItemId item (selectedItem props))
               (items props) i ->
  let c := mount getItemId props in
  currentIndex c = i /\
  (translateX c == - inject_Z i * itemSpacing props)%Q.
Proof.
  intros H c. subst c. unfold mount, initialIndex. cbn [currentIndex translateX].
  rewrite (findIndex_first _ _ _ H).
  pose proof (firstIndexOf_range _ _ _ H) as R.
  destruct (0 <=? i) eqn:E; [|lia]. split; reflexivity.
Qed.

(** ** The empty list *)

Lemma onEnd_empty {T} (getItemId : T -> string) (props : CarouselProps T)
  (event : PanGestureEvent) (c : Instance T) :
  items props = [] ->
  let c' := exec (onEnd getItemId props event) c in
  (translateX c' == 0)%Q /\ currentIndex c' = 0 /\ trace c' = trace c.
Proof.
  intros E c'. subst c'.
  rewrite onEnd_exec, updateSelectedItem_exec, snapToIndex_exec.
  rewrite E. cbn [Array.length List.length Z.of_nat Z.sub Z.opp Z.add Z.pos_sub].
  assert (K : forall x, Math.maxi 0 (Math.mini x (-1)) = 0).
  { intro x. unfold Math.maxi, Math.mini. lia. }
  rewrite K. cbn [translateX currentIndex trace Array.get Z.ltb Z.compare Z.to_nat nth_error].
  rewrite app_nil_r. change (inject_Z 0) with 0%Q.
  split; [lra|]. split; reflexivity.
Qed.

Lemma onUpdate_empty {T} (props : CarouselProps T)
  (event : PanGestureEvent) (c : Instance T) :
  items props = [] ->
  let c' := exec (onUpdate props event) c in
  currentIndex c' = currentIndex c /\ trace c' = trace c /\
  ((0 <= itemSpacing props)%Q -> currentIndex c = 0 ->
   (translateX c' == itemSpacing props)%Q).
Proof.
  intros E c'. subst c'. rewrite onUpdate_exec. cbn [currentIndex trace translateX].
  split; [reflexivity|]. split; [reflexivity|].
  intros Hs Hi. rewrite E, Hi. cbn [Array.length List.length Z.of_nat Z.sub Z.opp Z.add Z.pos_sub].
  set (s := itemSpacing props) in *.
  change (inject_Z (-1)) with (-1 # 1)%Q. change (inject_Z 0) with 0%Q.
  unfold Math.max, Math.min.
  assert (M : (Qmin 0 (- 0 * s + translationX event) <= 0)%Q) by apply Q.le_min_l.
  rewrite Q.max_l; lra.
Qed.

Lemma gestures_empty {T} (getItemId : T -> string) (props : CarouselProps T)
  (gs : list GestureStep) :
  items props = [] ->
  forall c : Instance T,
  let c' := exec (gestures getItemId props gs) c in
  trace c' = trace c /\ (currentIndex c = 0 -> currentIndex c' = 0).
Proof.
  intro E. unfold gestures.
  induction gs as [|g gs IH]; intro c; cbn zeta.
  - cbn. tauto.
  - cbn [List.map sequence]. rewrite exec_bind.
    set (c1 := exec (handle getItemId props g) c).
    destruct (IH c1) as (Ht & Hi). cbn zeta in Ht, Hi.
    assert (S1 : trace c1 = trace c /\ (currentIndex c = 0 -> currentIndex c1 = 0)).
    { subst c1. destruct g as [event|event]; cbn [handle].
      - destruct (onUpdate_empty props event c E) as (A & B & _).
        split; [exact B|intro; congruence].
      - destruct (onEnd_empty getItemId props event c E) as (_ & B & C).
        split; [exact C|intro; exact B]. }
    destruct S1 as (Ht1 & Hi1).
    split; [congruence|auto].
Qed.

(** C6, as amended.  On the empty list no item is rendered; whatever
    sequence of drag updates and releases follows the first render, the
    trace stays as that render left it, so [onItemChange] never fires, the
    cached index stays 0 and a new render pass still renders no item.  The
    stored offset is not left alone: a release sets it to 0, and an update
    sets it to [+ spacing] when the spacing is not negative. *)
Theorem C6_empty_list_nothing_observable
  {T : Type} (getItemId : T -> string) (props : CarouselProps T)
  (gs : list GestureStep) :
  items props = [] ->
  let c0 := firstRender getItemId props in
  let c' := exec (gestures getItemId props gs) c0 in
  renderItemCalls (trace c0) = [] /\
  trace c' = trace c0 /\
  (forall item, ~ In (OnItemChange item) (trace c')) /\
  currentIndex c' = 0 /\
  renderItemCalls (trace (exec (render props) c')) = [] /\
  (forall event,
     (translateX (exec (handle getItemId props (End event)) c') == 0)%Q) /\
  (forall event, (0 <= itemSpacing props)%Q ->
     (translateX (exec (handle getItemId props (Update event)) c')
      == itemSpacing props)%Q).
Proof.
  intros E c0 c'.
  assert (R : renderCalls props =
              if hasRenderDetail props
              then [RenderDetail (selectedItem props)] else []).
  { unfold renderCalls. rewrite E. apply app_nil_r. }
  assert (T0 : trace c0 = renderCalls props).
  { subst c0. rewrite firstRender_eq, render_exec. reflexivity. }
  assert (I0 : currentIndex c0 = 0).
  { subst c0. rewrite firstRender_eq, render_exec. cbn [currentIndex mount].
    unfold initialIndex. rewrite E. reflexivity. }
  destruct (gestures_empty getItemId props gs E c0) as (Ht & Hi).
  fold c' in Ht, Hi.
  assert (N : renderItemCalls (trace c0) = []).
  { rewrite T0, renderItemCalls_renderCalls, E. reflexivity. }
  split; [exact N|]. split; [exact Ht|]. split; [|split; [|split; [|split]]].
  - intros item H. rewrite Ht, T0, R in H.
    destruct (hasRenderDetail props); cbn in H;
      [destruct H as [H|[]]; discriminate|exact H].
  - apply Hi, I0.
  - rewrite render_exec. cbn [trace].
    rewrite renderItemCalls_app, Ht, N, renderItemCalls_renderCalls, E.
    reflexivity.
  - intro event. apply (onEnd_empty getItemId props event c' E).
  - intros event Hs.
    apply (onUpdate_empty props event c' E); [exact Hs|apply Hi, I0].
Qed.

Lemma C6_empty_list_nothing_observable_witness :
  let p := testProps [] nonExistentItem in
  let gs := [Update (mkEvent (-100) 0); End (mkEvent (-100) (-600))] in
  let c' := exec (gestures mockGetItemId p gs)
                 (firstRender mockGetItemId p) in
  items p = [] /\ trace c' = [] /\ currentIndex c' = 0 /\
  (translateX (exec (onUpdate p (mkEvent 50 0)) c') == 200)%Q.
Proof.
  intros p gs c'.
  destruct (C6_empty_list_nothing_observable mockGetItemId p gs eq_refl)
    as (_ & Ht & _ & Hi & _ & _ & Hx).
  split; [reflexivity|]. split; [exact Ht|]. split; [exact Hi|].
  apply (Hx (mkEvent 50 0)). vm_compute. discriminate.
Defined.

(** C6 fails as stated: on the empty list with the default spacing a drag
    update leaves the offset at 200 and the release that follows moves it
    to 0, although nothing is rendered and nothing is notified. *)
Lemma C6_release_moves_offset_counterexample :
  let p := testProps [] nonExistentItem in
  let c := exec (handle mockGetItemId p (Update (mkEvent 0 0)))
                (firstRender mockGetItemId p) in
  let g := End (mkEvent 0 0) in
  trace c = [] /\
  (translateX c == 200)%Q /\
  (translateX (exec (handle mockGetItemId p g) c) == 0)%Q /\
  ~ gestureInert mockGetItemId p c g.
Proof.
  split; [reflexivity|]. split; [reflexivity|]. split; [reflexivity|].
  intros [H _]. vm_compute in H. discriminate.
Qed.

(** ** The rest invariant *)

Lemma inject_Z_mult_cancel (i j : Z) (s : Q) :
  ~ (s == 0)%Q -> (- inject_Z i * s == - inject_Z j * s)%Q -> i = j.
Proof.
  intros Hs H.
  assert (E : ((inject_Z i - inject_Z j) * s == 0)%Q) by lra.
  apply Qmult_integral in E. destruct E as [E|E]; [|contradiction].
  assert (E' : (inject_Z i == inject_Z j)%Q) by lra.
  unfold Qeq in E'. simpl in E'. lia.
Qed.

Lemma anchored_atRest {T} (props : CarouselProps T) (c : Instance T) :
  ~ (itemSpacing props == 0)%Q -> anchored props c -> atRest props c.
Proof.
  intros Hs [R X]. split; [|exact R].
  exists (currentIndex c). split; [split; assumption|].
  intros j [_ Xj]. apply (inject_Z_mult_cancel j (currentIndex c) _ Hs).
  rewrite <- Xj, <- X. reflexivity.
Qed.

Lemma onEnd_anchored {T} (getItemId : T -> string) (props : CarouselProps T)
  (event : PanGestureEvent) (c : Instance T) :
  items props <> [] -> anchored props (exec (onEnd getItemId props event) c).
Proof.
  intro Hne. pose proof (length_pos _ Hne) as Hn.
  rewrite onEnd_exec, updateSelectedItem_exec, snapToIndex_exec.
  unfold anchored, restsOn. cbn [currentIndex translateX].
  split; [|reflexivity]. unfold Math.maxi, Math.mini. lia.
Qed.

Lemma useEffect_anchored {T} (getItemId : T -> string) (props : CarouselProps T)
  (c : Instance T) :
  anchored props c -> anchored props (exec (useEffect getItemId props) c).
Proof.
  intro A. rewrite useEffect_exec.
  destruct (String.eqb _ _); [exact A|].
  set (p := fun item => String.eqb (getItemId item) (getItemId (selectedItem props))).
  destruct (findIndex_cases p (items props)) as [[E _]|F].
  - rewrite E. exact A.
  - pose proof (firstIndexOf_range _ _ _ F) as R.
    destruct (Array.findIndex p (items props) =? -1) eqn:E; [lia|].
    split; [exact R|reflexivity].
Qed.

Lemma render_anchored {T} (props props' : CarouselProps T) (c : Instance T) :
  anchored props c -> anchored props (exec (render props') c).
Proof. intro A. rewrite render_exec. exact A. Qed.

Lemma run_anchored {T} (getItemId : T -> string) (steps : list (Step T)) :
  forall (props : CarouselProps T) (c : Instance T),
  items props <> [] ->
  anchored props c ->
  let (props', c') := run getItemId props c steps in
  items props' = items props /\ itemSpacing props' = itemSpacing props /\
  anchored props' c'.
Proof.
  induction steps as [|st steps IH]; intros props c Hne A.
  - cbn. auto.
  - cbn [run]. destruct st as [item|updates release]; cbn [step].
    + set (props' := withSelected props item).
      specialize (IH props' (exec (useEffect getItemId props')
                                  (exec (render props') c)) Hne).
      destruct (run getItemId props' _ steps) as [props'' c''].
      apply IH. apply useEffect_anchored, (render_anchored props'). exact A.
    + specialize (IH props (exec (onEnd getItemId props release)
                     (exec (sequence (List.map (onUpdate props) updates)) c)) Hne).
      destruct (run getItemId props _ steps) as [props'' c''].
      apply IH. apply onEnd_anchored, Hne.
Qed.

(** C7, as amended.  For a non-empty list, a non-zero spacing and a
    selected item whose id is in the list at the mount, after any sequence
    of host selections and completed drags the offset equals
    [- index * spacing] for exactly one valid index, which is the cached
    index, and the cached index is within [[0, length - 1]]. *)
Theorem C7_rest_invariant
  {T : Type} (getItemId : T -> string) (props : CarouselProps T)
  (steps : list (Step T)) :
  items props <> [] ->
  ~ (itemSpacing props == 0)%Q ->
  (exists item, In item (items props) /\
                getItemId item = getItemId (selectedItem props)) ->
  let c0 := firstRender getItemId props in
  let c := snd (run getItemId props c0 steps) in
  atRest props c /\
  (translateX c == - inject_Z (currentIndex c) * itemSpacing props)%Q.
Proof.
  intros Hne Hs (item & Hin & Hid) c0 c.
  assert (A0 : anchored props c0).
  { subst c0. rewrite firstRender_eq. apply (render_anchored props).
    destruct (findIndex_cases
                (fun it => sameId getItemId it (selectedItem props))
                (items props)) as [[_ F]|F].
    - apply sameId_true_iff in Hid. rewrite (F item Hin) in Hid. discriminate.
    - destruct (mount_present getItemId props _ F) as [Hi Hx].
      split; rewrite Hi; [eapply firstIndexOf_range, F|exact Hx]. }
  pose proof (run_anchored getItemId steps props c0 Hne A0) as R.
  subst c. destruct (run getItemId props c0 steps) as [props' c']. cbn [snd].
  destruct R as (Ei & Es & [R X]).
  assert (A : anchored props c').
  { split; [rewrite <- Ei; exact R|rewrite <- Es; exact X]. }
  split; [apply anchored_atRest; assumption|apply A].
Qed.

Lemma C7_rest_invariant_witness :
  let p := testProps items3 (testItem "0") in
  let steps := [Drag [mkEvent (-100) 0] (mkEvent (-100) (-600));
                Select (testItem "1")] in
  let c := snd (run mockGetItemId p
                    (firstRender mockGetItemId p) steps) in
  items p <> [] /\ ~ (itemSpacing p == 0)%Q /\
  (exists item, In item (items p) /\
                mockGetItemId item = mockGetItemId (selectedItem p)) /\
  atRest p c /\ currentIndex c = 1.
Proof.
  intros p steps c.
  assert (Hne : items p <> []) by discriminate.
  assert (Hs : ~ (itemSpacing p == 0)%Q) by (intro H; vm_compute in H; discriminate).
  assert (Hin : exists item, In item (items p) /\
                  mockGetItemId item = mockGetItemId (selectedItem p)).
  { exists (testItem "0"). split; [left; reflexivity|reflexivity]. }
  split; [exact Hne|]. split; [exact Hs|]. split; [exact Hin|].
  split; [|reflexivity].
  exact (proj1 (C7_rest_invariant mockGetItemId p steps Hne Hs Hin)).
Defined.

(** C7 fails as stated: on the empty list a drag release leaves the offset
    at 0 and the cached index at 0, while no index lies in [[0, -1]]. *)
Lemma C7_empty_list_counterexample :
  let p := testProps [] nonExistentItem in
  let c := exec (onEnd mockGetItemId p (mkEvent 0 0))
                (firstRender mockGetItemId p) in
  currentIndex c = 0 /\ (translateX c == 0)%Q /\ ~ atRest p c.
Proof.
  split; [reflexivity|]. split; [reflexivity|].
  intros [_ [_ H]]. vm_compute in H. apply H. reflexivity.
Qed.

(** Further ways the invariant of C7 is lost.  A spacing of 0 puts every
    index on the same offset. *)
Example zero_spacing_rests_on_every_index :
  let p := mkProps items3 (testItem "0") 192 0 (7 # 10) 1 false in
  let c := mount mockGetItemId p in
  restsOn p c 0 /\ restsOn p c 1 /\ ~ atRest p c.
Proof.
  intros p c.
  assert (R0 : restsOn p c 0) by (split; [vm_compute; split; discriminate|reflexivity]).
  assert (R1 : restsOn p c 1) by (split; [vm_compute; split; discriminate|reflexivity]).
  split; [exact R0|]. split; [exact R1|].
  intros [(i & _ & U) _]. pose proof (U 0 R0). pose proof (U 1 R1). lia.
Qed.

(** A list that shrinks under an unchanged selected item leaves the cached
    index beyond the new end: the effect does nothing, the id being the
    same. *)
Example shrunk_list_keeps_index :
  let p5 := testProps items5 (testItem "4") in
  let p3 := testProps items3 (testItem "4") in
  let c := exec (useEffect mockGetItemId p3)
                (exec (render p3) (exec (render p5) (mount mockGetItemId p5))) in
  currentIndex c = 4 /\ ~ atRest p3 c.
Proof.
  split; [reflexivity|].
  intros [_ [_ H]]. vm_compute in H. apply H. reflexivity.
Qed.

(** A selected item that is not in the list at the mount leaves the offset
    on index -1 (see C5). *)
Example absent_selected_not_at_rest :
  let p := testProps items3 nonExistentItem in
  ~ atRest p (mount mockGetItemId p).
Proof.
  intros p [(i & [R X] & _) _].
  vm_compute in R. destruct R as [R1 R2].
  unfold Qeq in X. cbn in X.
  destruct i as [|i|i]; try discriminate; try lia.
  apply R1. reflexivity.
Qed.

(** ** Per-item visual transform *)

Lemma interpolate_within (x s a b : Q) :
  (0 < s)%Q -> (0 <= x <= s)%Q ->
  (interpolate x (0, s) (a, b) == a + (x / s) * (b - a))%Q.
Proof.
  intros Hs [L U]. unfold interpolate.
  destruct (Qeq_bool (s - 0) 0) eqn:Z0.
  { apply Qeq_bool_eq in Z0. lra. }
  assert (Ep : ((x - 0) / (s - 0) == x / s)%Q).
  { assert (E1 : (x - 0 == x)%Q) by ring.
    assert (E2 : (s - 0 == s)%Q) by ring.
    rewrite E1, E2. reflexivity. }
  assert (P0 : (0 <= x / s)%Q) by (apply Qle_shift_div_l; lra).
  assert (P1 : (x / s <= 1)%Q) by (apply Qle_shift_div_r; lra).
  set (p := (x / s)%Q) in *.
  set (p' := ((x - 0) / (s - 0))%Q) in *.
  destruct (Qle_bool a b) eqn:Eab.
  - apply Qle_bool_iff in Eab.
    assert (T0 : (0 <= p * (b - a))%Q) by (apply Qmult_le_0_compat; lra).
    assert (T1 : (0 <= (1 - p) * (b - a))%Q) by (apply Qmult_le_0_compat; lra).
    assert (F1 : Qlt_bool (1 * (a + p' * (b - a))) (1 * a) = false).
    { apply Qlt_bool_false_iff. rewrite Ep. lra. }
    assert (F2 : Qlt_bool (1 * b) (1 * (a + p' * (b - a))) = false).
    { apply Qlt_bool_false_iff. rewrite Ep.
      assert (E : ((1 - p) * (b - a) == b - (a + p * (b - a)))%Q) by ring. lra. }
    rewrite F1, F2, Ep. reflexivity.
  - assert (Hab : (b < a)%Q).
    { apply Qnot_le_lt. intro H. apply Qle_bool_iff in H. congruence. }
    assert (T0 : (0 <= p * (a - b))%Q) by (apply Qmult_le_0_compat; lra).
    assert (T1 : (0 <= (1 - p) * (a - b))%Q) by (apply Qmult_le_0_compat; lra).
    assert (E0 : (p * (b - a) == - (p * (a - b)))%Q) by ring.
    assert (E1 : ((1 - p) * (a - b) == (a + p * (b - a)) - b)%Q) by ring.
    assert (F1 : Qlt_bool (-1 * (a + p' * (b - a))) (-1 * a) = false).
    { apply Qlt_bool_false_iff. rewrite Ep. lra. }
    assert (F2 : Qlt_bool (-1 * b) (-1 * (a + p' * (b - a))) = false).
    { apply Qlt_bool_false_iff. rewrite Ep. lra. }
    rewrite F1, F2, Ep. reflexivity.
Qed.

Lemma interpolate_beyond (x s a b : Q) :
  (0 < s)%Q -> (s <= x)%Q -> (interpolate x (0, s) (a, b) == b)%Q.
Proof.
  intros Hs L. unfold interpolate.
  destruct (Qeq_bool (s - 0) 0) eqn:Z0.
  { apply Qeq_bool_eq in Z0. lra. }
  assert (Ep : ((x - 0) / (s - 0) == x / s)%Q).
  { assert (E1 : (x - 0 == x)%Q) by ring.
    assert (E2 : (s - 0 == s)%Q) by ring.
    rewrite E1, E2. reflexivity. }
  assert (P1 : (1 <= x / s)%Q) by (apply Qle_shift_div_l; lra).
  set (p := (x / s)%Q) in *.
  set (p' := ((x - 0) / (s - 0))%Q) in *.
  destruct (Qle_bool a b) eqn:Eab.
  - apply Qle_bool_iff in Eab.
    assert (T1 : (0 <= (p - 1) * (b - a))%Q) by (apply Qmult_le_0_compat; lra).
    assert (E : ((p - 1) * (b - a) == (a + p * (b - a)) - b)%Q) by ring.
    assert (F1 : Qlt_bool (1 * (a + p' * (b - a))) (1 * a) = false).
    { apply Qlt_bool_false_iff. rewrite Ep. lra. }
    rewrite F1.
    destruct (Qlt_bool (1 * b) (1 * (a + p' * (b - a)))) eqn:F2; [reflexivity|].
    apply Qlt_bool_false_iff in F2. rewrite Ep in *. lra.
  - assert (Hab : (b < a)%Q).
    { apply Qnot_le_lt. intro H. apply Qle_bool_iff in H. congruence. }
    assert (T1 : (0 <= (p - 1) * (a - b))%Q) by (apply Qmult_le_0_compat; lra).
    assert (E : ((p - 1) * (a - b) == b - (a + p * (b - a)))%Q) by ring.
    assert (F1 : Qlt_bool (-1 * (a + p' * (b - a))) (-1 * a) = false).
    { apply Qlt_bool_false_iff. rewrite Ep. lra. }
    rewrite F1.
    destruct (Qlt_bool (-1 * b) (-1 * (a + p' * (b - a)))) eqn:F2; [reflexivity|].
    apply Qlt_bool_false_iff in F2. rewrite Ep in *. lra.
Qed.

Lemma distance_from_center (W size tx off : Q) :
  (Qabs ((W / 2 - size / 2) + tx + off + size / 2 - W / 2) == Qabs (tx + off))%Q.
Proof.
  apply Qabs_wd. field.
Qed.

(** C8.  With a positive spacing [s], the style of the item at index [i]
    under the offset [t] is computed from [i], [t] and the configuration
    alone: its distance from the visual centre is [|t + i * s|], whatever
    the window width and the item size; the scale is
    [maxScale + (distance / s) * (minScale - maxScale)] and the opacity
    [1 + (distance / s) * (0.6 - 1)] up to the distance [s], and they stay
    at [minScale] and [0.6] from the distance [s] on. *)
Theorem C8_item_transform
  {T : Type} (props : CarouselProps T) (SCREEN_WIDTH : Q) (i : Z) (t : Q) :
  (0 < itemSpacing props)%Q ->
  let s := itemSpacing props in
  let st := animatedStyle props SCREEN_WIDTH i t in
  let d := Qabs (t + inject_Z i * s)%Q in
  (position st == SCREEN_WIDTH / 2 - itemSize props / 2 + t + inject_Z i * s)%Q /\
  (distanceFromCenter st == d)%Q /\
  ((d <= s)%Q ->
     (scale st == maxScale props + (d / s) * (minScale props - maxScale props))%Q /\
     (opacity st == 1 + (d / s) * ((6 # 10) - 1))%Q) /\
  ((s <= d)%Q ->
     (scale st == minScale props)%Q /\ (opacity st == 6 # 10)%Q).
Proof.
  intros Hs s st d. subst st. unfold animatedStyle.
  cbn [position distanceFromCenter scale opacity]. fold s.
  set (x := Math.abs _).
  assert (Hx : (x == d)%Q).
  { subst x d. unfold Math.abs. apply distance_from_center. }
  assert (H0 : (0 <= x)%Q) by (subst x; apply Qabs_nonneg).
  split; [reflexivity|]. split; [exact Hx|]. split.
  - intro Hd. unfold MAX_OPACITY, MIN_OPACITY.
    rewrite !interpolate_within by (try exact Hs; split; lra).
    rewrite Hx. split; reflexivity.
  - intro Hd. unfold MAX_OPACITY, MIN_OPACITY.
    rewrite !interpolate_beyond by (try exact Hs; lra).
    split; reflexivity.
Qed.

Lemma C8_item_transform_witness :
  let p := testProps items3 (testItem "0") in
  let st := animatedStyle p 390 1 (-100) in
  (0 < itemSpacing p)%Q /\
  (distanceFromCenter st == 100)%Q /\
  (scale st == 85 # 100)%Q /\ (opacity st == 8 # 10)%Q.
Proof.
  intros p st.
  assert (Hs : (0 < itemSpacing p)%Q) by reflexivity.
  destruct (C8_item_transform p 390 1 (-100) Hs) as (_ & Hd & Hin & _).
  split; [exact Hs|]. split; [exact Hd|].
  assert (Hle : (Qabs (-100 + inject_Z 1 * itemSpacing p) <= itemSpacing p)%Q)
    by (vm_compute; discriminate).
  destruct (Hin Hle) as [Hsc Hop].
  split.
  - eapply Qeq_trans; [exact Hsc|reflexivity].
  - eapply Qeq_trans; [exact Hop|reflexivity].
Defined.

(** The transform at the centre and one full spacing away, with the
    default configuration. *)
Example centred_item_style :
  let st := animatedStyle (testProps items3 (testItem "0")) 390 0 0 in
  (scale st == 1)%Q /\ (opacity st == 1)%Q /\ (position st == 99)%Q.
Proof. repeat split. Qed.

Example neighbour_item_style :
  let st := animatedStyle (testProps items3 (testItem "0")) 390 1 0 in
  (scale st == 7 # 10)%Q /\ (opacity st == 6 # 10)%Q /\ (position st == 299)%Q.
Proof. repeat split. Qed.

Example far_item_style :
  let st := animatedStyle (testProps items3 (testItem "0")) 390 2 0 in
  (scale st == 7 # 10)%Q /\ (opacity st == 6 # 10)%Q.
Proof. repeat split. Qed.

(** * Further properties of the component *)

(** ** Mount and effect *)

Lemma present_firstIndexOf {A} (p : A -> bool) (l : list A) (a : A) :
  In a l -> p a = true -> exists i, firstIndexOf p l i.
Proof.
  intros Hin Hp. destruct (findIndex_cases p l) as [[_ F]|F].
  - rewrite (F a Hin) in Hp. discriminate.
  - eauto.
Qed.

(** X1.  When some list item has the selected item's id, the first render
    leaves the carousel in agreement with the selection: the cached index
    is the first index whose item has that id, the offset is the one of
    that index, and the remembered id is the selected one. *)
Theorem first_render_synced
  {T : Type} (getItemId : T -> string) (props : CarouselProps T) :
  (exists item, In item (items props) /\
                getItemId item = getItemId (selectedItem props)) ->
  let c := firstRender getItemId props in
  synced getItemId props c /\
  firstIndexOf (fun item => sameId getItemId item (selectedItem props))
               (items props) (currentIndex c).
Proof.
  intros (item & Hin & Hid) c.
  apply sameId_true_iff in Hid.
  destruct (present_firstIndexOf
              (fun it => sameId getItemId it (selectedItem props))
              _ _ Hin Hid) as [i F].
  destruct (mount_present getItemId props i F) as [Hi Hx].
  assert (Ec : c = exec (render props) (mount getItemId props))
    by apply firstRender_eq.
  assert (Ei : currentIndex c = i) by (rewrite Ec, render_exec; exact Hi).
  assert (Ex : (translateX c == - inject_Z i * itemSpacing props)%Q)
    by (rewrite Ec, render_exec; exact Hx).
  split; [|rewrite Ei; exact F].
  split; [|split].
  - split; rewrite Ei; [eapply firstIndexOf_range, F|exact Ex].
  - rewrite Ec, render_exec. reflexivity.
  - destruct F as (a & G & Pa & _). exists a. rewrite Ei.
    split; [exact G|apply sameId_true_iff, Pa].
Qed.

Lemma first_render_synced_witness :
  let p := testProps items3 (testItem "1") in
  (exists item, In item (items p) /\
                mockGetItemId item = mockGetItemId (selectedItem p)) /\
  synced mockGetItemId p (firstRender mockGetItemId p) /\
  currentIndex (firstRender mockGetItemId p) = 1.
Proof.
  intro p.
  assert (H : exists item, In item (items p) /\
                mockGetItemId item = mockGetItemId (selectedItem p)).
  { exists (testItem "1"). split; [right; left; reflexivity|reflexivity]. }
  split; [exact H|]. split; [|reflexivity].
  exact (proj1 (first_render_synced mockGetItemId p H)).
Defined.

(** X2.  Selecting an item whose id no list item has moves nothing: the
    effect leaves offset, cached index and trace as they were and only
    remembers the new id. *)
Theorem effect_absent_id_keeps_position
  {T : Type} (getItemId : T -> string) (props : CarouselProps T) (c : Instance T) :
  (forall item, In item (items props) ->
     getItemId item <> getItemId (selectedItem props)) ->
  exec (useEffect getItemId props) c =
  mkInstance (translateX c) (currentIndex c)
             (getItemId (selectedItem props)) (trace c).
Proof.
  intro H. rewrite useEffect_exec.
  rewrite findIndex_absent by (intros a Ha; apply String.eqb_neq, H, Ha).
  destruct (String.eqb _ _) eqn:E; [|reflexivity].
  apply String.eqb_eq in E. rewrite <- E. destruct c; reflexivity.
Qed.

Lemma effect_absent_id_keeps_position_witness :
  let p := testProps items3 nonExistentItem in
  let c := firstRender mockGetItemId (testProps items3 (testItem "2")) in
  (forall item, In item (items p) ->
     mockGetItemId item <> mockGetItemId (selectedItem p)) /\
  currentIndex (exec (useEffect mockGetItemId p) c) = 2 /\
  previousItemId (exec (useEffect mockGetItemId p) c) = "non-existent"%string.
Proof.
  intros p c.
  assert (H : forall item, In item (items p) ->
     mockGetItemId item <> mockGetItemId (selectedItem p)).
  { intros item [<-|[<-|[<-|[]]]]; discriminate. }
  split; [exact H|].
  rewrite (effect_absent_id_keeps_position mockGetItemId p c H).
  split; reflexivity.
Defined.

(** X3.  Running the effect twice with the same props is running it once,
    and after it the remembered id is always the selected item's id. *)
Theorem effect_idempotent
  {T : Type} (getItemId : T -> string) (props : CarouselProps T) (c : Instance T) :
  let c' := exec (useEffect getItemId props) c in
  exec (useEffect getItemId props) c' = c' /\
  previousItemId c' = getItemId (selectedItem props).
Proof.
  intro c'.
  assert (P : previousItemId c' = getItemId (selectedItem props)).
  { subst c'. rewrite useEffect_exec.
    destruct (String.eqb _ _) eqn:E; [apply String.eqb_eq, E|].
    destruct (_ =? -1); reflexivity. }
  split; [apply useEffect_same_id, P|exact P].
Qed.

(** X4.  A render whose selected item has the remembered id never moves
    the carousel, whatever else changed in the props: a list that was
    reordered, shortened or replaced leaves offset and cached index where
    they were. *)
Theorem rerender_same_id_keeps_position
  {T : Type} (getItemId : T -> string) (props' : CarouselProps T) (c : Instance T) :
  previousItemId c = getItemId (selectedItem props') ->
  let c' := exec (useEffect getItemId props') (exec (render props') c) in
  translateX c' = translateX c /\ currentIndex c' = currentIndex c /\
  previousItemId c' = previousItemId c.
Proof.
  intros H c'. subst c'.
  rewrite useEffect_same_id by (rewrite render_exec; exact H).
  rewrite render_exec. repeat split.
Qed.

Lemma rerender_same_id_keeps_position_witness :
  let p5 := testProps items5 (testItem "4") in
  let p' := testProps [testItem "4"; testItem "0"] (testItem "4") in
  let c := firstRender mockGetItemId p5 in
  let c' := exec (useEffect mockGetItemId p') (exec (render p') c) in
  previousItemId c = mockGetItemId (selectedItem p') /\
  currentIndex c' = 4 /\ translateX c' = translateX c.
Proof.
  intros p5 p' c c'.
  assert (H : previousItemId c = mockGetItemId (selectedItem p')) by reflexivity.
  destruct (rerender_same_id_keeps_position mockGetItemId p' c H) as (Hx & Hi & _).
  split; [exact H|]. split; [exact (eq_trans Hi eq_refl)|exact Hx].
Defined.

(** ** Composition of gesture events *)

Lemma onUpdate_absorbs {T} (props : CarouselProps T) (e1 e2 : PanGestureEvent)
  (c : Instance T) :
  exec (onUpdate props e2) (exec (onUpdate props e1) c) = exec (onUpdate props e2) c.
Proof. rewrite !onUpdate_exec. reflexivity. Qed.

Lemma updates_last {T} (props : CarouselProps T) (us : list PanGestureEvent)
  (e : PanGestureEvent) (c : Instance T) :
  exec (sequence (List.map (onUpdate props) (us ++ [e]))) c =
  exec (onUpdate props e) c.
Proof.
  revert c. induction us as [|a us IH]; intro c.
  - cbn [app List.map sequence]. rewrite exec_bind. reflexivity.
  - cbn [app List.map sequence]. rewrite exec_bind.
    change (List.map (onUpdate props) (us ++ [e]))
      with (List.map (onUpdate (T:=T) props) (us ++ [e])).
    rewrite IH. apply onUpdate_absorbs.
Qed.

(** X5.  Updates do not accumulate: after any run of drag updates the
    instance is the one the last update alone produces, so a completed
    drag depends on its last update and its release only; the cached
    index and the trace are those from before the drag until the
    release. *)
Theorem drag_depends_on_last_update
  {T : Type} (getItemId : T -> string) (props : CarouselProps T)
  (us : list PanGestureEvent) (e release : PanGestureEvent) (c : Instance T) :
  let c1 := exec (sequence (List.map (onUpdate props) (us ++ [e]))) c in
  c1 = exec (onUpdate props e) c /\
  currentIndex c1 = currentIndex c /\ trace c1 = trace c /\
  step getItemId props c (Drag (us ++ [e]) release) =
  step getItemId props c (Drag [e] release).
Proof.
  intro c1. subst c1. rewrite updates_last.
  split; [reflexivity|]. split; [reflexivity|]. split; [reflexivity|].
  cbn [step]. rewrite updates_last.
  pose proof (updates_last props [] e c) as H. cbn [app] in H.
  rewrite H. reflexivity.
Qed.

(** ** Where a drag ends *)

Lemma round_comp (x y : Q) : (x == y)%Q -> Math.round x = Math.round y.
Proof. intro H. unfold Math.round. rewrite H. reflexivity. Qed.


Lemma onEnd_index {T} (getItemId : T -> string) (props : CarouselProps T)
  (event : PanGestureEvent) (c : Instance T) :
  items props <> [] ->
  let c' := exec (onEnd getItemId props event) c in
  currentIndex c' =
    specTarget (Array.length (items props)) (itemSpacing props)
               (translateX c) (velocityX event) /\
  translateX c' = (- inject_Z (currentIndex c') * itemSpacing props)%Q /\
  previousItemId c' = previousItemId c.
Proof.
  intros Hne c'. pose proof (length_pos _ Hne) as Hn. subst c'.
  rewrite onEnd_exec, updateSelectedItem_exec, snapToIndex_exec.
  cbn [currentIndex translateX previousItemId].
  split; [apply release_clamp, Hn|]. split; reflexivity.
Qed.

(** The offset of an index rounds back to that index. *)
Lemma round_of_anchor (i : Z) (s o : Q) :
  ~ (s == 0)%Q -> (o == - inject_Z i * s)%Q -> Math.round (- o / s)%Q = i.
Proof.
  intros Hs Ho. rewrite <- (round_inject_Z i). apply round_comp.
  rewrite Ho. field. exact Hs.
Qed.

Lemma clampedTo_id (lo hi x : Z) : lo <= x <= hi -> clampedTo lo hi x = x.
Proof.
  intro H. unfold clampedTo.
  destruct (x <? lo) eqn:E1; destruct (hi <? x) eqn:E2; lia.
Qed.

(** X6.  Offset and index round-trip: on a non-empty list with a non-zero
    spacing, a slow release (|v| <= 500) of a carousel whose offset is the
    one of its valid cached index leaves index and offset where they are;
    when the selection agrees with the carousel, the host is not
    notified. *)
Theorem slow_release_at_rest_is_fixpoint
  {T : Type} (getItemId : T -> string) (props : CarouselProps T)
  (event : PanGestureEvent) (c : Instance T) :
  items props <> [] ->
  ~ (itemSpacing props == 0)%Q ->
  anchored props c ->
  (Qabs (velocityX event) <= 500)%Q ->
  let c' := exec (onEnd getItemId props event) c in
  currentIndex c' = currentIndex c /\
  (translateX c' == translateX c)%Q /\
  (synced getItemId props c -> trace c' = trace c).
Proof.
  intros Hne Hs [R X] Hv c'.
  destruct (onEnd_index getItemId props event c Hne) as (Hi & Hx & _).
  fold c' in Hi, Hx.
  assert (Ei : currentIndex c' = currentIndex c).
  { rewrite Hi. unfold specTarget.
    rewrite (round_of_anchor _ _ _ Hs X), (specNudge_slow _ Hv), Z.add_0_r.
    apply clampedTo_id, R. }
  split; [exact Ei|]. split.
  - rewrite Hx, Ei, X. reflexivity.
  - intros (_ & _ & item & G & Hid).
    assert (K : Math.maxi 0
                  (Math.mini (releaseIndex props (translateX c) (velocityX event))
                             (Array.length (items props) - 1)) = currentIndex c).
    { rewrite <- Ei. unfold c'.
      rewrite onEnd_exec, updateSelectedItem_exec, snapToIndex_exec. reflexivity. }
    unfold c'. rewrite onEnd_exec, updateSelectedItem_exec, snapToIndex_exec.
    cbn [trace].
    rewrite K, G. apply sameId_true_iff in Hid. rewrite Hid. apply app_nil_r.
Qed.

Lemma slow_release_at_rest_is_fixpoint_witness :
  let p := testProps items3 (testItem "1") in
  let c := firstRender mockGetItemId p in
  let c' := exec (onEnd mockGetItemId p (mkEvent 0 100)) c in
  items p <> [] /\ ~ (itemSpacing p == 0)%Q /\ anchored p c /\
  (Qabs 100 <= 500)%Q /\
  currentIndex c' = 1 /\ (translateX c' == -200)%Q.
Proof.
  intros p c c'.
  assert (Hne : items p <> []) by discriminate.
  assert (Hs : ~ (itemSpacing p == 0)%Q) by (intro H; vm_compute in H; discriminate).
  assert (Ha : anchored p c) by (split; [vm_compute; split; discriminate|reflexivity]).
  assert (Hv : (Qabs (velocityX (mkEvent 0 100)) <= 500)%Q) by (vm_compute; discriminate).
  destruct (slow_release_at_rest_is_fixpoint mockGetItemId p (mkEvent 0 100) c
              Hne Hs Ha Hv) as (Hi & Hx & _).
  split; [exact Hne|]. split; [exact Hs|]. split; [exact Ha|]. split; [exact Hv|].
  split; [exact (eq_trans Hi eq_refl)|].
  eapply Qeq_trans; [exact Hx|reflexivity].
Defined.

(** X7.  A flick (|v| > 500) released at rest on the valid index [i] moves
    by exactly one item in the direction of the swipe and stops at the
    ends: to [min (i + 1) (n - 1)] for a negative velocity, to
    [max (i - 1) 0] for a positive one. *)
Theorem flick_at_rest_moves_one
  {T : Type} (getItemId : T -> string) (props : CarouselProps T)
  (event : PanGestureEvent) (c : Instance T) :
  items props <> [] ->
  ~ (itemSpacing props == 0)%Q ->
  anchored props c ->
  (500 < Qabs (velocityX event))%Q ->
  let n := Array.length (items props) in
  let i := currentIndex c in
  let c' := exec (onEnd getItemId props event) c in
  ((velocityX event < 0)%Q -> currentIndex c' = Z.min (i + 1) (n - 1)) /\
  ((0 < velocityX event)%Q -> currentIndex c' = Z.max (i - 1) 0) /\
  (translateX c' == - inject_Z (currentIndex c') * itemSpacing props)%Q.
Proof.
  intros Hne Hs [R X] Hv n i c'.
  destruct (onEnd_index getItemId props event c Hne) as (Hi & Hx & _).
  fold c' in Hi, Hx. fold n in Hi, R. fold i in R, X.
  unfold specTarget in Hi.
  rewrite (round_of_anchor _ _ _ Hs X), (specNudge_fast _ Hv) in Hi.
  split; [|split].
  - intro Hneg. apply Qlt_bool_iff in Hneg. rewrite Hneg in Hi.
    rewrite Hi. unfold clampedTo.
    destruct (i + 1 <? 0) eqn:E1; destruct (n - 1 <? i + 1) eqn:E2; lia.
  - intro Hpos.
    assert (E : Qlt_bool (velocityX event) 0 = false)
      by (apply Qlt_bool_false_iff; lra).
    rewrite E in Hi. rewrite Hi. unfold clampedTo.
    destruct (i + -1 <? 0) eqn:E1; destruct (n - 1 <? i + -1) eqn:E2; lia.
  - rewrite Hx. reflexivity.
Qed.

Lemma flick_at_rest_moves_one_witness :
  let p := testProps items3 (testItem "2") in
  let c := firstRender mockGetItemId p in
  let c' := exec (onEnd mockGetItemId p (mkEvent 0 (-600))) c in
  items p <> [] /\ ~ (itemSpacing p == 0)%Q /\ anchored p c /\
  (500 < Qabs (-600))%Q /\ currentIndex c' = 2.
Proof.
  intros p c c'.
  assert (Hne : items p <> []) by discriminate.
  assert (Hs : ~ (itemSpacing p == 0)%Q) by (intro H; vm_compute in H; discriminate).
  assert (Ha : anchored p c) by (split; [vm_compute; split; discriminate|reflexivity]).
  assert (Hv : (500 < Qabs (velocityX (mkEvent 0 (-600))))%Q) by reflexivity.
  destruct (flick_at_rest_moves_one mockGetItemId p (mkEvent 0 (-600)) c
              Hne Hs Ha Hv) as (Hneg & _ & _).
  split; [exact Hne|]. split; [exact Hs|]. split; [exact Ha|]. split; [exact Hv|].
  exact (eq_trans (Hneg eq_refl) eq_refl).
Defined.








(** ** Bounds and shape of the visual transform *)

Lemma interpolate_bounds (x s a b : Q) :
  (0 < s)%Q -> (0 <= x)%Q -> (b <= a)%Q ->
  (b <= interpolate x (0, s) (a, b) <= a)%Q.
Proof.
  intros Hs Hx Hab.
  destruct (Qlt_le_dec x s) as [L|L].
  - rewrite interpolate_within by (try exact Hs; split; lra).
    assert (P0 : (0 <= x / s)%Q) by (apply Qle_shift_div_l; lra).
    assert (P1 : (x / s <= 1)%Q) by (apply Qle_shift_div_r; lra).
    set (p := (x / s)%Q) in *.
    assert (T0 : (0 <= p * (a - b))%Q) by (apply Qmult_le_0_compat; lra).
    assert (T1 : (0 <= (1 - p) * (a - b))%Q) by (apply Qmult_le_0_compat; lra).
    assert (E0 : (p * (b - a) == - (p * (a - b)))%Q) by ring.
    assert (E1 : ((1 - p) * (a - b) == (a + p * (b - a)) - b)%Q) by ring.
    split; lra.
  - rewrite interpolate_beyond by assumption. split; lra.
Qed.

Lemma interpolate_antitone (x y s a b : Q) :
  (0 < s)%Q -> (0 <= x <= y)%Q -> (b <= a)%Q ->
  (interpolate y (0, s) (a, b) <= interpolate x (0, s) (a, b))%Q.
Proof.
  intros Hs [Hx Hxy] Hab.
  destruct (Qlt_le_dec y s) as [L|L].
  - rewrite !interpolate_within by (try exact Hs; split; lra).
    assert (P : (x / s <= y / s)%Q).
    { apply Qle_shift_div_l; [exact Hs|].
      assert (E : (x / s * s == x)%Q) by (field; lra). lra. }
    assert (T : (0 <= (y / s - x / s) * (a - b))%Q)
      by (apply Qmult_le_0_compat; lra).
    assert (E : ((y / s - x / s) * (a - b)
                 == (a + x / s * (b - a)) - (a + y / s * (b - a)))%Q) by ring.
    lra.
  - rewrite (interpolate_beyond y) by assumption.
    apply (interpolate_bounds x s a b); assumption.
Qed.

(** X11.  With a positive spacing and [minScale <= maxScale], every item is
    drawn with a scale between [minScale] and [maxScale] and an opacity
    between 0.6 and 1, whatever the offset, the index, the window width
    and the item size. *)
Theorem transform_within_bounds
  {T : Type} (props : CarouselProps T) (SCREEN_WIDTH : Q) (i : Z) (t : Q) :
  (0 < itemSpacing props)%Q ->
  (minScale props <= maxScale props)%Q ->
  let st := animatedStyle props SCREEN_WIDTH i t in
  (minScale props <= scale st <= maxScale props)%Q /\
  (6 # 10 <= opacity st <= 1)%Q.
Proof.
  intros Hs Hm st. subst st. unfold animatedStyle. cbn [scale opacity].
  set (x := Math.abs _).
  assert (H0 : (0 <= x)%Q) by (subst x; apply Qabs_nonneg).
  split.
  - apply interpolate_bounds; assumption.
  - apply interpolate_bounds; [exact Hs|exact H0|].
    unfold MIN_OPACITY, MAX_OPACITY. lra.
Qed.

Lemma transform_within_bounds_witness :
  let p := testProps items3 (testItem "0") in
  let st := animatedStyle p 390 2 (-130) in
  (0 < itemSpacing p)%Q /\ (minScale p <= maxScale p)%Q /\
  (minScale p <= scale st <= maxScale p)%Q.
Proof.
  intros p st.
  assert (Hs : (0 < itemSpacing p)%Q) by reflexivity.
  assert (Hm : (minScale p <= maxScale p)%Q) by (vm_compute; discriminate).
  split; [exact Hs|]. split; [exact Hm|].
  exact (proj1 (transform_within_bounds p 390 2 (-130) Hs Hm)).
Defined.

(** X12.  Of two items, the one farther from the centre is never drawn
    larger or more opaque (positive spacing, [minScale <= maxScale]). *)
Theorem farther_item_not_larger
  {T : Type} (props : CarouselProps T) (SCREEN_WIDTH : Q) (i j : Z) (t : Q) :
  (0 < itemSpacing props)%Q ->
  (minScale props <= maxScale props)%Q ->
  let near := animatedStyle props SCREEN_WIDTH i t in
  let far := animatedStyle props SCREEN_WIDTH j t in
  (distanceFromCenter near <= distanceFromCenter far)%Q ->
  (scale far <= scale near)%Q /\ (opacity far <= opacity near)%Q.
Proof.
  intros Hs Hm near far. subst near far. unfold animatedStyle.
  cbn [scale opacity distanceFromCenter].
  set (x := Math.abs _). set (y := Math.abs _).
  intro Hxy.
  assert (H0 : (0 <= x)%Q) by (subst x; apply Qabs_nonneg).
  split.
  - apply interpolate_antitone; [exact Hs|split; assumption|exact Hm].
  - apply interpolate_antitone; [exact Hs|split; assumption|].
    unfold MIN_OPACITY, MAX_OPACITY. lra.
Qed.

Lemma farther_item_not_larger_witness :
  let p := testProps items3 (testItem "0") in
  let near := animatedStyle p 390 0 (-50) in
  let far := animatedStyle p 390 1 (-50) in
  (0 < itemSpacing p)%Q /\ (minScale p <= maxScale p)%Q /\
  (distanceFromCenter near <= distanceFromCenter far)%Q /\
  (scale far <= scale near)%Q.
Proof.
  intros p near far.
  assert (Hs : (0 < itemSpacing p)%Q) by reflexivity.
  assert (Hm : (minScale p <= maxScale p)%Q) by (vm_compute; discriminate).
  assert (Hd : (distanceFromCenter near <= distanceFromCenter far)%Q)
    by (vm_compute; discriminate).
  split; [exact Hs|]. split; [exact Hm|]. split; [exact Hd|].
  exact (proj1 (farther_item_not_larger p 390 0 1 (-50) Hs Hm Hd)).
Defined.

Lemma off_centre_distance (i j : Z) (s tx : Q) :
  (0 < s)%Q -> i <> j -> (tx == - inject_Z i * s)%Q ->
  (s <= Qabs (tx + inject_Z j * s))%Q.
Proof.
  intros Hs Hij Htx.
  assert (Ey : (tx + inject_Z j * s == (inject_Z j - inject_Z i) * s)%Q)
    by (rewrite Htx; ring).
  rewrite Ey.
  destruct (Z_lt_le_dec i j) as [L|L].
  - assert (K : (inject_Z (i + 1) <= inject_Z j)%Q) by (rewrite <- Zle_Qle; lia).
    rewrite inject_Z_plus in K. change (inject_Z 1) with 1%Q in K.
    assert (F : (0 <= (inject_Z j - inject_Z i - 1) * s)%Q)
      by (apply Qmult_le_0_compat; lra).
    assert (E : ((inject_Z j - inject_Z i - 1) * s
                 == (inject_Z j - inject_Z i) * s - s)%Q) by ring.
    apply Qabs_case; intro; lra.
  - assert (K : (inject_Z (j + 1) <= inject_Z i)%Q) by (rewrite <- Zle_Qle; lia).
    rewrite inject_Z_plus in K. change (inject_Z 1) with 1%Q in K.
    assert (F : (0 <= (inject_Z i - inject_Z j - 1) * s)%Q)
      by (apply Qmult_le_0_compat; lra).
    assert (E : ((inject_Z i - inject_Z j - 1) * s
                 == - ((inject_Z j - inject_Z i) * s) - s)%Q) by ring.
    apply Qabs_case; intro; lra.
Qed.

(** X13.  When the offset is the one of index [i] (positive spacing), the
    item at [i] is drawn centred in the window at [maxScale] and full
    opacity, and every other item at [minScale] and opacity 0.6: exactly
    one item is highlighted at rest. *)
Theorem at_rest_one_item_highlighted
  {T : Type} (props : CarouselProps T) (SCREEN_WIDTH : Q) (i j : Z) (t : Q) :
  (0 < itemSpacing props)%Q ->
  (t == - inject_Z i * itemSpacing props)%Q ->
  let here := animatedStyle props SCREEN_WIDTH i t in
  let other := animatedStyle props SCREEN_WIDTH j t in
  (position here + itemSize props / 2 == SCREEN_WIDTH / 2)%Q /\
  (scale here == maxScale props)%Q /\ (opacity here == 1)%Q /\
  (j <> i ->
   (scale other == minScale props)%Q /\ (opacity other == 6 # 10)%Q).
Proof.
  intros Hs Ht here other. subst here other. unfold animatedStyle.
  cbn [position scale opacity].
  remember (itemSpacing props) as s eqn:Es.
  assert (D : forall k, (Math.abs (SCREEN_WIDTH / 2 - itemSize props / 2 + t
                                   + inject_Z k * s + itemSize props / 2
                                   - SCREEN_WIDTH / 2)
                         == Qabs (t + inject_Z k * s))%Q).
  { intro k. apply distance_from_center. }
  assert (Z0 : (Qabs (t + inject_Z i * s) == 0)%Q).
  { assert (E : (t + inject_Z i * s == 0)%Q) by (rewrite Ht; ring).
    rewrite E. reflexivity. }
  split; [rewrite Ht; field|].
  split; [|split].
  - rewrite interpolate_within
      by (try exact Hs; rewrite D, Z0; split; lra).
    rewrite D, Z0. field. lra.
  - rewrite interpolate_within
      by (try exact Hs; rewrite D, Z0; split; lra).
    rewrite D, Z0. unfold MAX_OPACITY, MIN_OPACITY. field. lra.
  - intro Hji.
    assert (Far : (s <= Qabs (t + inject_Z j * s))%Q)
      by (apply (off_centre_distance i j); auto).
    rewrite !interpolate_beyond by (try exact Hs; rewrite D; exact Far).
    split; reflexivity.
Qed.

Lemma at_rest_one_item_highlighted_witness :
  let p := testProps items3 (testItem "1") in
  let here := animatedStyle p 390 1 (-200) in
  let other := animatedStyle p 390 2 (-200) in
  (0 < itemSpacing p)%Q /\ (-200 == - inject_Z 1 * itemSpacing p)%Q /\
  (scale here == maxScale p)%Q /\ (scale other == minScale p)%Q.
Proof.
  intros p here other.
  assert (Hs : (0 < itemSpacing p)%Q) by reflexivity.
  assert (Ht : (-200 == - inject_Z 1 * itemSpacing p)%Q) by reflexivity.
  destruct (at_rest_one_item_highlighted p 390 1 2 (-200) Hs Ht)
    as (_ & Hsc & _ & Ho).
  split; [exact Hs|]. split; [exact Ht|]. split; [exact Hsc|].
  apply Ho. discriminate.
Defined.

(** ** The selection loop with the host *)

Lemma newCalls_app {T} (c c' : Instance T) (l : list (Call T)) :
  trace c' = trace c ++ l -> newCalls c c' = l.
Proof.
  unfold newCalls. intros ->.
  induction (trace c) as [|e t IH]; [reflexivity|exact IH].
Qed.

Lemma updates_frame {T} (props : CarouselProps T) (us : list PanGestureEvent) :
  forall c : Instance T,
  let c0 := exec (sequence (List.map (onUpdate props) us)) c in
  currentIndex c0 = currentIndex c /\ previousItemId c0 = previousItemId c /\
  trace c0 = trace c.
Proof.
  induction us as [|e us IH]; intro c; cbn zeta.
  - cbn. auto.
  - cbn [List.map sequence]. rewrite exec_bind.
    destruct (IH (exec (onUpdate props e) c)) as (A & B & C).
    cbn zeta in A, B, C. rewrite A, B, C, onUpdate_exec. auto.
Qed.

Lemma nodup_ids_index {T} (f : T -> string) (l : list T) (j k : Z) (a b : T) :
  NoDup (List.map f l) ->
  Array.get l j = Some b -> Array.get l k = Some a -> f b = f a -> j = k.
Proof.
  intros N Gj Gk E. unfold Array.get in Gj, Gk.
  destruct (j <? 0) eqn:Ej; [discriminate|].
  destruct (k <? 0) eqn:Ek; [discriminate|].
  assert (Hj : nth_error (List.map f l) (Z.to_nat j) = Some (f b))
    by (apply map_nth_error, Gj).
  assert (Hk : nth_error (List.map f l) (Z.to_nat k) = Some (f a))
    by (apply map_nth_error, Gk).
  assert (L : (Z.to_nat j < List.length (List.map f l))%nat)
    by (apply nth_error_Some; congruence).
  assert (Q : Z.to_nat j = Z.to_nat k).
  { apply (proj1 (NoDup_nth_error _) N _ _ L). congruence. }
  lia.
Qed.

(** X14.  Under a host that adopts every notification as the next
    selected item, and with item ids that are all different, a completed
    drag on a non-empty list ends with the carousel and the selection in
    agreement, and the effect that follows the host's render does not move
    the carousel: cached index and offset stay those of the release.  It
    is enough that the remembered id was the selected one before the
    drag. *)
Theorem controlled_drag_keeps_sync
  {T : Type} (getItemId : T -> string) (props : CarouselProps T)
  (c : Instance T) (updates : list PanGestureEvent) (release : PanGestureEvent) :
  items props <> [] ->
  ~ (itemSpacing props == 0)%Q ->
  NoDup (List.map getItemId (items props)) ->
  previousItemId c = getItemId (selectedItem props) ->
  let c1 := snd (step getItemId props c (Drag updates release)) in
  let props' := fst (controlledDrag getItemId props c updates release) in
  let c' := snd (controlledDrag getItemId props c updates release) in
  synced getItemId props' c' /\
  items props' = items props /\
  currentIndex c' = currentIndex c1 /\
  translateX c' = translateX c1.
Proof.
  intros Hne _ N Hp c1 props' c'.
  pose proof (length_pos _ Hne) as Hn.
  set (c0 := exec (sequence (List.map (onUpdate props) updates)) c).
  destruct (updates_frame props updates c) as (_ & P0 & T0).
  fold c0 in P0, T0.
  set (k := Math.maxi 0
              (Math.mini (releaseIndex props (translateX c0) (velocityX release))
                         (Array.length (items props) - 1))).
  assert (Hk : 0 <= k <= Array.length (items props) - 1)
    by (subst k; unfold Math.maxi, Math.mini; lia).
  destruct (get_in_range _ _ Hk) as [item G].
  assert (E1 : c1 =
    mkInstance (- inject_Z k * itemSpacing props)%Q k (previousItemId c)
      (trace c ++ if sameId getItemId item (selectedItem props)
                  then [] else [OnItemChange item])).
  { subst c1. cbn [step snd]. fold c0.
    rewrite onEnd_exec, updateSelectedItem_exec, snapToIndex_exec.
    cbn [translateX currentIndex previousItemId trace].
    fold k. rewrite G, P0, T0. reflexivity. }
  assert (NC : newCalls c c1 =
               if sameId getItemId item (selectedItem props)
               then [] else [OnItemChange item]).
  { apply newCalls_app. rewrite E1. reflexivity. }
  subst props' c'. unfold controlledDrag. fold c1. rewrite NC.
  destruct (sameId getItemId item (selectedItem props)) eqn:S.
  - cbn [fst snd]. rewrite E1. cbn [currentIndex translateX].
    split; [|auto].
    split; [split; [exact Hk|reflexivity]|].
    split; [exact Hp|].
    exists item. split; [exact G|apply sameId_true_iff, S].
  - cbn [fst snd adopt fold_left].
    set (p' := withSelected props item).
    assert (F : firstIndexOf
                  (fun it => String.eqb (getItemId it) (getItemId (selectedItem p')))
                  (items p') k).
    { exists item. split; [exact G|]. split; [apply String.eqb_refl|].
      intros j b Hj Gj. apply String.eqb_neq. intro Eid.
      pose proof (nodup_ids_index getItemId _ j k item b N Gj G Eid). lia. }
    rewrite useEffect_exec, render_exec.
    cbn [previousItemId translateX currentIndex trace].
    rewrite (findIndex_first _ _ _ F).
    assert (Hchg : String.eqb (previousItemId c1) (getItemId (selectedItem p')) = false).
    { rewrite E1. cbn [previousItemId]. rewrite Hp. apply String.eqb_neq.
      apply sameId_false_iff in S. cbn. congruence. }
    rewrite Hchg.
    destruct (k =? -1) eqn:Ek; [lia|].
    rewrite E1. cbn [currentIndex translateX].
    split; [|auto].
    split; [split; [exact Hk|reflexivity]|].
    split; [reflexivity|].
    exists item. split; [exact G|reflexivity].
Qed.

Lemma controlled_drag_keeps_sync_witness :
  let p := testProps items3 (testItem "0") in
  let c := firstRender mockGetItemId p in
  let r := controlledDrag mockGetItemId p c [mkEvent (-100) 0] (mkEvent (-100) (-600)) in
  items p <> [] /\ ~ (itemSpacing p == 0)%Q /\
  NoDup (List.map mockGetItemId (items p)) /\
  previousItemId c = mockGetItemId (selectedItem p) /\
  synced mockGetItemId (fst r) (snd r) /\ currentIndex (snd r) = 2 /\
  selectedItem (fst r) = testItem "2".
Proof.
  intros p c r.
  assert (Hne : items p <> []) by discriminate.
  assert (Hs : ~ (itemSpacing p == 0)%Q) by (intro H; vm_compute in H; discriminate).
  assert (N : NoDup (List.map mockGetItemId (items p))).
  { repeat constructor; cbn; intuition discriminate. }
  assert (Hp : previousItemId c = mockGetItemId (selectedItem p)) by reflexivity.
  destruct (controlled_drag_keeps_sync mockGetItemId p c [mkEvent (-100) 0]
              (mkEvent (-100) (-600)) Hne Hs N Hp) as (Hsy & _ & _ & _).
  split; [exact Hne|]. split; [exact Hs|]. split; [exact N|]. split; [exact Hp|].
  split; [exact Hsy|]. split; reflexivity.
Defined.

(** With two items under one id the host's render pulls the carousel back
    to the first of them. *)
Example duplicate_ids_jump_back :
  let a := mkTestItem "x" "A" "a.jpg" in
  let b := mkTestItem "y" "B" "b.jpg" in
  let b' := mkTestItem "y" "B again" "b2.jpg" in
  let p := testProps [a; b; b'] a in
  let c := firstRender mockGetItemId p in
  currentIndex (snd (step mockGetItemId p c (Drag [mkEvent (-400) 0] (mkEvent (-400) 0)))) = 2 /\
  currentIndex (snd (controlledDrag mockGetItemId p c [mkEvent (-400) 0] (mkEvent (-400) 0))) = 1.
Proof. split; reflexivity. Qed.

(** ** The gradient ring *)

(** X15.  The ring is sized to wrap the item exactly: its box is the item
    size plus 8 on each axis with the circle at its centre, the inner edge
    of the stroke is the circle inscribed in the item box and the outer
    edge touches the box of the ring, for every item size. *)
Theorem ring_wraps_item (itemSize : Q) (gradientColors : list string) :
  let g := Gradient.GradientBorder itemSize gradientColors in
  (Gradient.width g == itemSize + 8)%Q /\
  (Gradient.height g == Gradient.width g)%Q /\
  (Gradient.cx g == Gradient.width g / 2)%Q /\
  (Gradient.cy g == Gradient.height g / 2)%Q /\
  (Gradient.radius g - Gradient.strokeWidth g / 2 == itemSize / 2)%Q /\
  (Gradient.radius g + Gradient.strokeWidth g / 2 == Gradient.width g / 2)%Q.
Proof.
  cbn. unfold Gradient.GRADIENT_BORDER_PADDING, Gradient.GRADIENT_RADIUS_OFFSET,
         Gradient.GRADIENT_STROKE_WIDTH.
  repeat split; try reflexivity; field.
Qed.

(** X16.  The gradient has one stop per colour, in order and with that
    colour.  A single colour gets the offset 0 without any division; with
    [k >= 2] colours the stop at index [i] gets [i * 100 / (k - 1)], which
    lies between 0 and 100, is 0 for the first and 100 for the last
    colour; no colours give no stops. *)
Theorem gradient_stops_evenly_spaced
  (itemSize : Q) (gradientColors : list string) (i : nat) (color : string) :
  nth_error gradientColors i = Some color ->
  let g := Gradient.GradientBorder itemSize gradientColors in
  let k := Array.length gradientColors in
  List.length (Gradient.stops g) = List.length gradientColors /\
  exists st,
    nth_error (Gradient.stops g) i = Some st /\
    Gradient.stopColor st = color /\
    (k = 1 -> Gradient.offset st = 0%Q) /\
    (2 <= k ->
       (Gradient.offset st == inject_Z (Z.of_nat i) * 100 / inject_Z (k - 1))%Q /\
       (0 <= Gradient.offset st <= 100)%Q /\
       (i = 0%nat -> (Gradient.offset st == 0)%Q) /\
       (Z.of_nat i = k - 1 -> (Gradient.offset st == 100)%Q)).
Proof.
  intros H g k. subst g. cbn [Gradient.GradientBorder Gradient.stops].
  unfold Array.map. split; [apply mapFrom_length|].
  eexists. split; [apply (mapFrom_nth_error _ _ 0 i color H)|].
  cbn [Gradient.stopColor Gradient.offset]. fold k.
  split; [reflexivity|]. split.
  - intros ->. reflexivity.
  - intro Hk. destruct (k =? 1) eqn:E; [lia|].
    rewrite Z.add_0_l.
    assert (Hi : (i < List.length gradientColors)%nat)
      by (apply nth_error_Some; congruence).
    assert (Ik : Z.of_nat i <= k - 1) by (unfold k, Array.length; lia).
    assert (D : (0 < inject_Z (k - 1))%Q).
    { change 0%Q with (inject_Z 0). rewrite <- Zlt_Qlt. lia. }
    assert (N0 : (0 <= inject_Z (Z.of_nat i))%Q).
    { change 0%Q with (inject_Z 0). rewrite <- Zle_Qle. lia. }
    assert (N1 : (inject_Z (Z.of_nat i) <= inject_Z (k - 1))%Q)
      by (rewrite <- Zle_Qle; exact Ik).
    assert (P0 : (0 <= inject_Z (Z.of_nat i) / inject_Z (k - 1))%Q)
      by (apply Qle_shift_div_l; lra).
    assert (P1 : (inject_Z (Z.of_nat i) / inject_Z (k - 1) <= 1)%Q)
      by (apply Qle_shift_div_r; lra).
    split; [field; lra|]. split; [split; lra|]. split.
    + intros ->. cbn [Z.of_nat]. change (inject_Z 0) with 0%Q. field. lra.
    + intros ->. field. lra.
Qed.

Lemma gradient_stops_evenly_spaced_witness :
  let g := Gradient.GradientBorder 192 ["orange"; "blue"; "violet"]%string in
  nth_error ["orange"; "blue"; "violet"]%string 1 = Some "blue"%string /\
  exists st, nth_error (Gradient.stops g) 1 = Some st /\
             (Gradient.offset st == 50)%Q.
Proof.
  intro g.
  destruct (gradient_stops_evenly_spaced 192 ["orange"; "blue"; "violet"]%string
              1 "blue"%string eq_refl) as (_ & st & Hn & _ & _ & Hk).
  split; [reflexivity|]. exists st. split; [exact Hn|].
  destruct Hk as (Ho & _); [vm_compute; discriminate|].
  eapply Qeq_trans; [exact Ho|reflexivity].
Defined.

(** ** The example application *)

(** X17.  While [fetchImages] is still making its setter calls, and for
    good after a rejected request or an empty list, the example
    application shows the loading text: the carousel is never mounted on
    an empty list or without a selected item. *)
Theorem app_keeps_loading (r : App.Response) (n : nat) :
  ((n < List.length (App.fetchImages r))%nat ->
   App.render (appAfter r n) = App.LoadingText) /\
  (r = App.Rejected \/ r = App.Fetched [] ->
   App.render (appAfter r n) = App.LoadingText).
Proof.
  unfold appAfter. split.
  - intro Hn. destruct r as [[|photo data]|]; cbn in Hn |- *.
    + destruct n as [|[|n]]; [reflexivity|reflexivity|lia].
    + destruct n as [|[|[|n]]]; [reflexivity|reflexivity|reflexivity|lia].
    + destruct n as [|n]; [reflexivity|lia].
  - intros [-> | ->]; cbn.
    + destruct n as [|[|n]]; reflexivity.
    + destruct n as [|[|[|n]]]; reflexivity.
Qed.

Lemma app_keeps_loading_witness :
  (2 < List.length
         (App.fetchImages
            (App.Fetched [App.mkPhoto "7" "a" 1 1 "u" "d" "i"])))%nat /\
  App.render (appAfter (App.Fetched [App.mkPhoto "7" "a" 1 1 "u" "d" "i"]) 2)
  = App.LoadingText.
Proof.
  assert (H : (2 < List.length
         (App.fetchImages
            (App.Fetched [App.mkPhoto "7" "a" 1 1 "u" "d" "i"])))%nat)
    by (cbn; lia).
  split; [exact H|].
  exact (proj1 (app_keeps_loading _ 2) H).
Defined.

(** X18.  Once a non-empty list has been fetched and every setter call
    made, the example application shows the carousel with the fetched
    photos in order, each with its download URL as image, the first of
    them selected; mounted on these props the carousel starts on index 0
    with offset 0, in agreement with the selection. *)
Theorem app_mounts_carousel_on_first_photo
  (photo : App.PicsumPhoto) (data : list App.PicsumPhoto) (n : nat) :
  (List.length (App.fetchImages (App.Fetched (photo :: data))) <= n)%nat ->
  exists props,
    App.render (appAfter (App.Fetched (photo :: data)) n) = App.CarouselView props /\
    List.map App.id (items props) = List.map App.id (photo :: data) /\
    Forall (fun it => App.image it = App.download_url it) (items props) /\
    Array.get (items props) 0 = Some (selectedItem props) /\
    App.id (selectedItem props) = App.id photo /\
    currentIndex (firstRender App.getItemId props) = 0 /\
    (translateX (firstRender App.getItemId props) == 0)%Q /\
    synced App.getItemId props (firstRender App.getItemId props).
Proof.
  intro Hn. unfold appAfter. cbn in Hn.
  destruct n as [|[|[|n]]]; try lia.
  cbn [App.fetchImages Array.get Z.ltb Z.compare Z.to_nat nth_error List.map
       app firstn].
  rewrite firstn_nil.
  cbn [fold_left App.apply App.initial App.items App.selectedItem App.loading].
  eexists. split; [reflexivity|].
  cbn [items selectedItem App.items App.selectedItem].
  set (tr := fun p : App.PicsumPhoto =>
               App.mkPhoto (App.id p) (App.author p) (App.width p) (App.height p)
                           (App.url p) (App.download_url p) (App.download_url p)).
  assert (Ids : List.map App.id (List.map tr data) = List.map App.id data).
  { rewrite List.map_map. apply List.map_ext. reflexivity. }
  assert (Img : Forall (fun it => App.image it = App.download_url it)
                  (List.map tr data)).
  { apply Forall_forall. intros it Hin. apply in_map_iff in Hin.
    destruct Hin as (p & <- & _). reflexivity. }
  split; [cbn [List.map App.id]; f_equal; exact Ids|].
  split; [constructor; [reflexivity|exact Img]|].
  split; [reflexivity|]. split; [reflexivity|].
  set (props := mkProps _ _ _ _ _ _ _).
  assert (F : firstIndexOf
                (fun it => sameId App.getItemId it (selectedItem props))
                (items props) 0).
  { exists (selectedItem props). split; [reflexivity|].
    split; [apply sameId_true_iff; reflexivity|]. intros; lia. }
  destruct (mount_present App.getItemId props 0 F) as [Hi Hx].
  rewrite firstRender_eq, render_exec. cbn [currentIndex translateX previousItemId].
  split; [exact Hi|]. split; [rewrite Hx; reflexivity|].
  split; [|split].
  - split; cbn [currentIndex translateX].
    + rewrite Hi. unfold Array.length. cbn [items props List.length]. lia.
    + rewrite Hi. exact Hx.
  - reflexivity.
  - cbn [currentIndex]. rewrite Hi. exists (selectedItem props).
    split; reflexivity.
Qed.

Lemma app_mounts_carousel_on_first_photo_witness :
  let photo := App.mkPhoto "7" "a" 1 1 "u" "d" "i" in
  (List.length (App.fetchImages (App.Fetched [photo])) <= 3)%nat /\
  exists props,
    App.render (appAfter (App.Fetched [photo]) 3) = App.CarouselView props /\
    currentIndex (firstRender App.getItemId props) = 0.
Proof.
  intro photo.
  assert (H : (List.length (App.fetchImages (App.Fetched [photo])) <= 3)%nat)
    by (cbn; lia).
  split; [exact H|].
  destruct (app_mounts_carousel_on_first_photo photo [] 3 H)
    as (props & Hr & _ & _ & _ & _ & Hi & _).
  exists props. split; assumption.
Defined.
